(** * SpotiSwipe: the session flow and the per-card interaction machines

    A shallow embedding of the React front end under
    [frontend/spotiswipe/src]:

    - [App.jsx]                        -> module [App]
    - [components/SongCard.jsx]        -> module [SongCard]
    - [components/Recommendations.jsx] -> module [Recommendations]
    - [App.jsx] with calls in flight   -> module [Async]
    - the card mounted inside the app  -> module [Swiping]
    - [components/GenreSelection.jsx]  -> module [GenreSelection]
    - the registration form LoginForm  -> module [LoginForm]

    Component state ([useState]) is a record; a handler is a function of
    the state it closes over.  Everything the outside world can observe
    (requests, alerts, analytics events, timers) is appended to a trace of
    effects, and everything the outside world decides (what a request
    answers, whether an animation promise resolves) is an argument.

    An [async] handler of [App.jsx] is given twice.  In module [App] it
    is whole: one call with the reply of its single request, as it runs
    when nothing else happens before the request settles.  In module
    [Async] it is split at its [await]: the part before it and the
    continuation after it are separate transitions of the component, the
    continuation reads the render it closed over and writes the live
    state, and any other handler may run in between.  The asynchronous
    operations of the components (the commit animation, the card-detail
    request, the preview request and the [play()] promise of a result
    row) are split at their [await] in the same way.  Handlers are called
    through the latest render. *)

From Stdlib Require Import QArith Qabs.
From stdpp Require Import base option list strings gmap.

Local Open Scope string_scope.
Local Open Scope list_scope.
Local Open Scope nat_scope.

(** The first occurrence of [k] removed: a settled promise leaves the
    list of pending ones. *)
Fixpoint remove_first `{EqDecision K} (k : K) (l : list K) : list K :=
  match l with
  | [] => []
  | u :: l' => if decide (k = u) then l' else u :: remove_first k l'
  end.

(** ** JavaScript values *)

Module Js.

(** How a statement block or an awaited promise ends: normally with a
    value, or with a thrown [Error] (its [message]). *)
Inductive Completion (A : Type) : Type :=
| Normal (a : A)
| Throw (message : string).
Global Arguments Normal {A} a.
Global Arguments Throw {A} message.

(** A string-valued property that may be absent ([undefined]/[null]) is
    an [option string]; it is truthy when present and not empty. *)
Definition truthy (v : option string) : bool :=
  match v with
  | Some s => negb (String.eqb s "")
  | None => false
  end.

(** [v || d] on such a property. *)
Definition or_else (v : option string) (d : string) : string :=
  match v with
  | Some s => if String.eqb s "" then d else s
  | None => d
  end.

(** [!xs?.length] for an array-valued property that may be absent. *)
Definition no_length {A} (xs : option (list A)) : bool :=
  match xs with
  | Some (_ :: _) => false
  | _ => true
  end.

(** [a > b] on numbers (finite, so a rational stands for the double). *)
Definition gt (a b : Q) : bool := negb (Qle_bool a b).

End Js.
Import Js.

(** ** The backend, as the front end sees it *)

Module Http.

(** The parsed JSON body of a reply: the [error] property every handler
    looks for on a failed call, and the properties of the endpoint. *)
Record Body (A : Type) : Type := mkBody { error : option string; data : A }.
Global Arguments mkBody {A} error data.
Global Arguments error {A} b.
Global Arguments data {A} b.

(** A [Response]: its [ok] flag and what [response.json()] settles to
    (it rejects when the body is not JSON). *)
Record Response (A : Type) : Type :=
  mkResponse { ok : bool; json : Completion (Body A) }.
Global Arguments mkResponse {A} ok json.
Global Arguments ok {A} r.
Global Arguments json {A} r.

(** What [await fetch(...)] settles to: [Throw] is a network failure. *)
Definition Fetched (A : Type) : Type := Completion (Response A).

(** A success reply carrying [a]. *)
Definition success {A} (a : A) : Fetched A :=
  Normal (mkResponse true (Normal (mkBody None a))).

(** A failure reply: HTTP status outside 2xx, with the body's [error]. *)
Definition failure {A} (err : option string) (a : A) : Fetched A :=
  Normal (mkResponse false (Normal (mkBody err a))).

(** The call failed: the network did, or the status is not a success. *)
Definition failed {A} (reply : Fetched A) : bool :=
  match reply with
  | Normal response => negb (ok response)
  | Throw _ => true
  end.

(** The call went through with a success status. *)
Definition accepted {A} (reply : Fetched A) : bool :=
  match reply with
  | Normal response => ok response
  | Throw _ => false
  end.

(** A success status whose body parses and carries [a]. *)
Definition carries {A} (reply : Fetched A) (a : A) : Prop :=
  ∃ response body,
    reply = Normal response ∧ ok response = true ∧
    json response = Normal body ∧ data body = a.

End Http.
Import Http.

(** ** Data model *)

Record Song : Type := mkSong {
  track_id : option string;
  track_name : string;
  artists : string;
  track_genre : string
}.

Record ScoredSong : Type := mkScored {
  scored_song : Song;
  energy : Q;
  popularity : Q;
  danceability : Q
}.

Record UserData : Type := mkUser { name : string; email : string }.

(** The request bodies the front end posts. *)
Inductive Request : Type :=
| UserLogin (user : UserData)
| InitialSongs (genres : list string) (session_id : option string)
| Swipe (session_id : option string) (song_index : string) (liked : bool)
| GetRecommendations (session_id : option string)
| GetSongDetail (track : string).

(** What a handler does to the outside world (of an analytics event, the
    category, action and label). *)
Inductive Effect : Type :=
| Post (r : Request)
| Alert (message : string)
| ConsoleError (context message : string)
| GAEvent (category action : string) (label : option string)
| SetTimeout_getRecommendations (ms : nat).

(** The [/get-song-detail] reply. *)
Record Detail : Type := mkDetail {
  image : option string;
  preview_url : option string
}.

(** ** App.jsx: the flow controller *)

Module App.

Inductive Step : Type :=
| registration | genres | swiping | loading | recommendations.

Global Instance Step_eq_dec : EqDecision Step.
Proof. solve_decision. Defined.

Record State : Type := mkState {
  step : Step;
  userData : option UserData;
  sessionId : option string;
  songs : list Song;
  currentSongIndex : nat;
  recs : list ScoredSong       (* the [recommendations] state variable *)
}.

(** [useState] initial values. *)
Definition initial : State :=
  mkState registration None None [] 0 [].

(** A handler threads the component state, appends to the trace and may
    throw. *)
Definition Handler (A : Type) : Type :=
  State → State * list Effect * Completion A.

Definition ret {A} (a : A) : Handler A := λ s, (s, [], Normal a).

Definition bind {A B} (m : Handler A) (k : A → Handler B) : Handler B :=
  λ s,
    match m s with
    | (s1, t1, Normal a) =>
        match k a s1 with (s2, t2, r) => (s2, t1 ++ t2, r) end
    | (s1, t1, Throw e) => (s1, t1, Throw e)
    end.

Definition throw {A} (message : string) : Handler A :=
  λ s, (s, [], Throw message).

Definition emit (e : Effect) : Handler unit := λ s, (s, [e], Normal tt).

Definition await {A} (p : Completion A) : Handler A := λ s, (s, [], p).

(** [try { body } catch (error) { handler(error.message) }] *)
Definition try_catch (body : Handler unit) (handler : string → Handler unit)
  : Handler unit :=
  λ s,
    match body s with
    | (s1, t1, Normal a) => (s1, t1, Normal a)
    | (s1, t1, Throw e) =>
        match handler e s1 with (s2, t2, r) => (s2, t1 ++ t2, r) end
    end.

Declare Scope handler_scope.
Delimit Scope handler_scope with handler.
Notation "x <- m ;; k" := (bind m (λ x, k))
  (at level 100, m at next level, right associativity) : handler_scope.
Notation "m ;; k" := (bind m (λ _, k))
  (at level 100, right associativity) : handler_scope.
Local Open Scope handler_scope.

(** The state setters. *)
Definition setStep (v : Step) : Handler unit :=
  λ s, (mkState v (userData s) (sessionId s) (songs s) (currentSongIndex s) (recs s), [], Normal tt).
Definition setUserData (v : option UserData) : Handler unit :=
  λ s, (mkState (step s) v (sessionId s) (songs s) (currentSongIndex s) (recs s), [], Normal tt).
Definition setSessionId (v : option string) : Handler unit :=
  λ s, (mkState (step s) (userData s) v (songs s) (currentSongIndex s) (recs s), [], Normal tt).
Definition setSongs (v : list Song) : Handler unit :=
  λ s, (mkState (step s) (userData s) (sessionId s) v (currentSongIndex s) (recs s), [], Normal tt).
Definition setCurrentSongIndex (v : nat) : Handler unit :=
  λ s, (mkState (step s) (userData s) (sessionId s) (songs s) v (recs s), [], Normal tt).
Definition setRecommendations (v : list ScoredSong) : Handler unit :=
  λ s, (mkState (step s) (userData s) (sessionId s) (songs s) (currentSongIndex s) v, [], Normal tt).

(** [await fetch(url, {method: 'POST', body})]: the request goes out,
    then the promise settles. *)
Definition fetch {A} (r : Request) (reply : Fetched A) : Handler (Response A) :=
  emit (Post r) ;; await reply.

(** The state and the trace a handler leaves behind. *)
Definition run (h : Handler unit) (s : State) : State * list Effect :=
  match h s with (s', t, _) => (s', t) end.

Definition handleRegistration (user : UserData)
    (reply : Fetched (option string)) : Handler unit :=
  try_catch
    (response <- fetch (UserLogin user) reply ;;
     responseData <- await (json response) ;;
     if negb (ok response)
     then throw (or_else (error responseData) "Registration failed")
     else
       emit (GAEvent "User" "Registration" (Some "Success")) ;;
       setSessionId (data responseData) ;;
       setUserData (Some user) ;;
       setStep genres)
    (λ message,
       emit (ConsoleError "Error during registration:" message) ;;
       emit (GAEvent "Error" "Registration Failed" (Some message)) ;;
       emit (Alert message)).

Definition join_genres (gs : list string) : string :=
  match gs with
  | [] => ""
  | g :: gs => foldl (λ acc x, acc +:+ ", " +:+ x) g gs
  end.

Definition handleStart (selectedGenres : list string)
    (reply : Fetched (list Song)) : Handler unit :=
  λ render,
  try_catch
    (emit (GAEvent "User Preferences" "Genre Selection"
             (Some (join_genres selectedGenres))) ;;
     response <- fetch (InitialSongs selectedGenres (sessionId render)) reply ;;
     body <- await (json response) ;;
     if negb (ok response)
     then throw (or_else (error body) "Failed to fetch songs")
     else
       setSongs (data body) ;;
       setStep swiping)
    (λ message,
       emit (ConsoleError "Error starting session:" message) ;;
       emit (GAEvent "Error" "Session Start Failed" (Some message)) ;;
       emit (Alert message))
    render.

Definition handleRestart : Handler unit :=
  emit (GAEvent "User Flow" "Restart App" None) ;;
  setStep genres ;;
  setSessionId None ;;
  setSongs [] ;;
  setCurrentSongIndex 0 ;;
  setRecommendations [].

Definition getRecommendations
    (reply : Fetched (option (list ScoredSong))) : Handler unit :=
  λ render,
  try_catch
    (if negb (truthy (sessionId render))
     then throw "No active session"
     else
       response <- fetch (GetRecommendations (sessionId render)) reply ;;
       body <- await (json response) ;;
       if negb (ok response)
       then throw (or_else (error body) "Failed to get recommendations")
       else if no_length (data body)
       then throw "Invalid recommendations data received"
       else
         emit (GAEvent "User Flow" "Recommendations Generated" None) ;;
         setRecommendations (default [] (data body)) ;;
         setStep recommendations)
    (λ message,
       emit (ConsoleError "Error getting recommendations:" message) ;;
       emit (GAEvent "Error" "Recommendations Failed" (Some message)) ;;
       emit (Alert ("Failed to get recommendations: " +:+ message)) ;;
       handleRestart)
    render.

Definition handleSwipe (liked : bool) (reply : Fetched unit) : Handler unit :=
  λ render,
  try_catch
    (if bool_decide (length (songs render) ≤ currentSongIndex render)
     then ret tt
     else
       let currentSong := songs render !! currentSongIndex render in
       if negb (truthy (currentSong ≫= track_id))
       then throw "Invalid song data"
       else
         emit (GAEvent "User Interaction" "Song Swipe"
                 (Some (if liked then "Like" else "Dislike"))) ;;
         response <- fetch (Swipe (sessionId render)
                              (default "" (currentSong ≫= track_id)) liked)
                           reply ;;
         (if negb (ok response)
          then
            refusal <- await (json response) ;;
            throw (or_else (error refusal) "Failed to record swipe")
          else ret tt) ;;
         let nextIndex := currentSongIndex render + 1 in
         setCurrentSongIndex nextIndex ;;
         if bool_decide (length (songs render) ≤ nextIndex)
         then
           setStep loading ;;
           emit (SetTimeout_getRecommendations 1500)
         else ret tt)
    (λ message,
       emit (ConsoleError "Error handling swipe:" message) ;;
       emit (GAEvent "Error" "Swipe Failed" (Some message)) ;;
       emit (Alert ("Error recording your choice: " +:+ message)))
    render.

(** *** Runs of the flow *)

(** A series of swipe commits, each with the backend's answer: the state
    and the trace each one leaves, oldest first. *)
Fixpoint swipe_log (ds : list (bool * Fetched unit)) (s : State)
  : list (State * list Effect) :=
  match ds with
  | [] => []
  | (liked, reply) :: ds' =>
      let r := run (handleSwipe liked reply) s in
      r :: swipe_log ds' r.1
  end.

(** The delays of the recommendation timers armed in a trace. *)
Definition timers (t : list Effect) : list nat :=
  omap (λ e, match e with
             | SetTimeout_getRecommendations ms => Some ms
             | _ => None
             end) t.

(** One transition of the sequential flow: a handler is called through
    the component rendered for its step (the login form, the genre
    picker, the card, rendered while [songs[currentSongIndex]] exists, the
    timer armed on entering [loading], the results page) and its request
    is answered before anything else happens.  Calls that overlap are in
    module [Async]. *)
Inductive transition (s : State) : State → Prop :=
| do_registration user reply :
    step s = registration →
    transition s (run (handleRegistration user reply) s).1
| do_start selectedGenres reply :
    step s = genres →
    transition s (run (handleStart selectedGenres reply) s).1
| do_swipe liked reply :
    step s = swiping → is_Some (songs s !! currentSongIndex s) →
    transition s (run (handleSwipe liked reply) s).1
| do_recommendations reply :
    step s = loading →
    transition s (run (getRecommendations reply) s).1
| do_restart :
    step s = recommendations →
    transition s (run handleRestart s).1.

Inductive reaches (s0 : State) : State → Prop :=
| reaches_refl : reaches s0 s0
| reaches_step s s' : reaches s0 s → transition s s' → reaches s0 s'.

Definition reachable : State → Prop := reaches initial.

End App.

(** ** App.jsx with its calls in flight *)

Module Async.
Import App.
Local Open Scope handler_scope.

(** An [async] handler runs up to its [await fetch(...)] when it is
    called and goes on when the request settles; other handlers run in
    between.  After the [await] it still reads the constants of the
    render it was created in ([render] below), while its setters write
    the state of the component as it is by then: the state one of these
    parts threads is the live one. *)

(** *** handleRegistration *)

Definition handleRegistration_begin (user : UserData) : Handler unit :=
  emit (Post (UserLogin user)).

Definition handleRegistration_resume (user : UserData)
    (reply : Fetched (option string)) : Handler unit :=
  try_catch
    (response <- await reply ;;
     responseData <- await (json response) ;;
     if negb (ok response)
     then throw (or_else (error responseData) "Registration failed")
     else
       emit (GAEvent "User" "Registration" (Some "Success")) ;;
       setSessionId (data responseData) ;;
       setUserData (Some user) ;;
       setStep genres)
    (λ message,
       emit (ConsoleError "Error during registration:" message) ;;
       emit (GAEvent "Error" "Registration Failed" (Some message)) ;;
       emit (Alert message)).

(** *** handleStart *)

Definition handleStart_begin (render : State) (selectedGenres : list string)
  : Handler unit :=
  emit (GAEvent "User Preferences" "Genre Selection"
          (Some (join_genres selectedGenres))) ;;
  emit (Post (InitialSongs selectedGenres (sessionId render))).

Definition handleStart_resume (reply : Fetched (list Song)) : Handler unit :=
  try_catch
    (response <- await reply ;;
     body <- await (json response) ;;
     if negb (ok response)
     then throw (or_else (error body) "Failed to fetch songs")
     else
       setSongs (data body) ;;
       setStep swiping)
    (λ message,
       emit (ConsoleError "Error starting session:" message) ;;
       emit (GAEvent "Error" "Session Start Failed" (Some message)) ;;
       emit (Alert message)).

(** *** handleSwipe *)

(** Whether the call gets as far as its request. *)
Definition handleSwipe_awaits (render : State) : bool :=
  negb (bool_decide (length (songs render) ≤ currentSongIndex render))
  && truthy (songs render !! currentSongIndex render ≫= track_id).

Definition handleSwipe_begin (render : State) (liked : bool) : Handler unit :=
  try_catch
    (if bool_decide (length (songs render) ≤ currentSongIndex render)
     then ret tt
     else
       let currentSong := songs render !! currentSongIndex render in
       if negb (truthy (currentSong ≫= track_id))
       then throw "Invalid song data"
       else
         emit (GAEvent "User Interaction" "Song Swipe"
                 (Some (if liked then "Like" else "Dislike"))) ;;
         emit (Post (Swipe (sessionId render)
                       (default "" (currentSong ≫= track_id)) liked)))
    (λ message,
       emit (ConsoleError "Error handling swipe:" message) ;;
       emit (GAEvent "Error" "Swipe Failed" (Some message)) ;;
       emit (Alert ("Error recording your choice: " +:+ message))).

Definition handleSwipe_resume (render : State) (reply : Fetched unit)
  : Handler unit :=
  try_catch
    (response <- await reply ;;
     (if negb (ok response)
      then
        refusal <- await (json response) ;;
        throw (or_else (error refusal) "Failed to record swipe")
      else ret tt) ;;
     let nextIndex := currentSongIndex render + 1 in
     setCurrentSongIndex nextIndex ;;
     if bool_decide (length (songs render) ≤ nextIndex)
     then
       setStep loading ;;
       emit (SetTimeout_getRecommendations 1500)
     else ret tt)
    (λ message,
       emit (ConsoleError "Error handling swipe:" message) ;;
       emit (GAEvent "Error" "Swipe Failed" (Some message)) ;;
       emit (Alert ("Error recording your choice: " +:+ message))).

(** *** getRecommendations *)

Definition getRecommendations_awaits (render : State) : bool :=
  truthy (sessionId render).

Definition getRecommendations_begin (render : State) : Handler unit :=
  try_catch
    (if negb (truthy (sessionId render))
     then throw "No active session"
     else emit (Post (GetRecommendations (sessionId render))))
    (λ message,
       emit (ConsoleError "Error getting recommendations:" message) ;;
       emit (GAEvent "Error" "Recommendations Failed" (Some message)) ;;
       emit (Alert ("Failed to get recommendations: " +:+ message)) ;;
       handleRestart).

Definition getRecommendations_resume
    (reply : Fetched (option (list ScoredSong))) : Handler unit :=
  try_catch
    (response <- await reply ;;
     body <- await (json response) ;;
     if negb (ok response)
     then throw (or_else (error body) "Failed to get recommendations")
     else if no_length (data body)
     then throw "Invalid recommendations data received"
     else
       emit (GAEvent "User Flow" "Recommendations Generated" None) ;;
       setRecommendations (default [] (data body)) ;;
       setStep recommendations)
    (λ message,
       emit (ConsoleError "Error getting recommendations:" message) ;;
       emit (GAEvent "Error" "Recommendations Failed" (Some message)) ;;
       emit (Alert ("Failed to get recommendations: " +:+ message)) ;;
       handleRestart).

(** *** The component with what it is waiting for *)

(** The live state and, oldest first, the calls that have not settled:
    each with what its continuation needs of the render it closed over.
    A timer armed by [handleSwipe] calls the [getRecommendations] of that
    same render. *)
Record Flow : Type := mkFlow {
  live : State;
  registrations : list UserData;
  starts : list (list string);
  swipes : list (State * bool);
  timers : list State;
  lookups : list State          (* [/api/recommendations] calls *)
}.

Definition mount : Flow := mkFlow initial [] [] [] [] [].

(** [onSwipe(liked)] with the [handleSwipe] of [render]. *)
Definition onSwipe (render : State) (liked : bool) (f : Flow)
  : Flow * list Effect :=
  let '(s, t) := run (handleSwipe_begin render liked) (live f) in
  (mkFlow s (registrations f) (starts f)
          (swipes f ++ (if handleSwipe_awaits render then [(render, liked)] else []))
          (timers f) (lookups f), t).

(** What happens to the component: a child calls the handler it was
    given, a request settles, a timer fires.  A child is there while its
    step is shown (the time its exit animation takes is not modelled),
    and the login form keeps its button disabled until [onSubmit] has
    settled; a settled request is named by its place among the pending
    ones. *)
Inductive Event : Type :=
| Submit (user : UserData)
| RegistrationSettled (k : nat) (reply : Fetched (option string))
| Start (selectedGenres : list string)
| StartSettled (k : nat) (reply : Fetched (list Song))
| Swipe (liked : bool)
| SwipeSettled (k : nat) (reply : Fetched unit)
| TimerFired (k : nat)
| RecommendationsSettled (k : nat) (reply : Fetched (option (list ScoredSong)))
| Restart.

Definition step (f : Flow) (e : Event) : Flow * list Effect :=
  match e with
  | Submit user =>
      if decide (App.step (live f) = registration ∧ registrations f = [])
      then
        let '(s, t) := run (handleRegistration_begin user) (live f) in
        (mkFlow s (registrations f ++ [user]) (starts f) (swipes f)
                (timers f) (lookups f), t)
      else (f, [])
  | RegistrationSettled k reply =>
      match registrations f !! k with
      | Some user =>
          let '(s, t) := run (handleRegistration_resume user reply) (live f) in
          (mkFlow s (delete k (registrations f)) (starts f) (swipes f)
                  (timers f) (lookups f), t)
      | None => (f, [])
      end
  | Start selectedGenres =>
      if decide (App.step (live f) = genres)
      then
        let '(s, t) := run (handleStart_begin (live f) selectedGenres) (live f) in
        (mkFlow s (registrations f) (starts f ++ [selectedGenres]) (swipes f)
                (timers f) (lookups f), t)
      else (f, [])
  | StartSettled k reply =>
      match starts f !! k with
      | Some _ =>
          let '(s, t) := run (handleStart_resume reply) (live f) in
          (mkFlow s (registrations f) (delete k (starts f)) (swipes f)
                  (timers f) (lookups f), t)
      | None => (f, [])
      end
  | Swipe liked =>
      if decide (App.step (live f) = swiping
                 ∧ is_Some (songs (live f) !! currentSongIndex (live f)))
      then onSwipe (live f) liked f
      else (f, [])
  | SwipeSettled k reply =>
      match swipes f !! k with
      | Some (render, _) =>
          let '(s, t) := run (handleSwipe_resume render reply) (live f) in
          (mkFlow s (registrations f) (starts f) (delete k (swipes f))
                  (timers f ++ ((λ _, render) <$> App.timers t)) (lookups f), t)
      | None => (f, [])
      end
  | TimerFired k =>
      match timers f !! k with
      | Some render =>
          let '(s, t) := run (getRecommendations_begin render) (live f) in
          (mkFlow s (registrations f) (starts f) (swipes f)
                  (delete k (timers f))
                  (lookups f ++ (if getRecommendations_awaits render
                                 then [render] else [])), t)
      | None => (f, [])
      end
  | RecommendationsSettled k reply =>
      match lookups f !! k with
      | Some _ =>
          let '(s, t) := run (getRecommendations_resume reply) (live f) in
          (mkFlow s (registrations f) (starts f) (swipes f) (timers f)
                  (delete k (lookups f)), t)
      | None => (f, [])
      end
  | Restart =>
      if decide (App.step (live f) = recommendations)
      then
        let '(s, t) := run handleRestart (live f) in
        (mkFlow s (registrations f) (starts f) (swipes f) (timers f)
                (lookups f), t)
      else (f, [])
  end.

Fixpoint run_events (f : Flow) (es : list Event) : Flow * list Effect :=
  match es with
  | [] => (f, [])
  | e :: es' =>
      let '(f1, t1) := step f e in
      let '(f2, t2) := run_events f1 es' in
      (f2, t1 ++ t2)
  end.

(** Nothing is in flight. *)
Definition quiet (a : State) : Flow := mkFlow a [] [] [] [] [].

(** *** Runs in which every call is answered before the next one *)

(** A call together with its answer: a form submitted, genres chosen, a
    decision, the timer with the recommendations it asks for, the
    Start Over button. *)
Inductive Round : Type :=
| Register (user : UserData) (reply : Fetched (option string))
| Choose (selectedGenres : list string) (reply : Fetched (list Song))
| Decide (liked : bool) (reply : Fetched unit)
| Recommend (reply : Fetched (option (list ScoredSong)))
| StartOver.

Definition events (r : Round) : list Event :=
  match r with
  | Register user reply => [Submit user; RegistrationSettled 0 reply]
  | Choose selectedGenres reply => [Start selectedGenres; StartSettled 0 reply]
  | Decide liked reply => [Swipe liked; SwipeSettled 0 reply]
  | Recommend reply => [TimerFired 0; RecommendationsSettled 0 reply]
  | StartOver => [Restart]
  end.

Definition sequential (rs : list Round) : list Event := concat (events <$> rs).

End Async.

(** ** components/SongCard.jsx: one card, its gesture and its media *)

Module SongCard.

Local Open Scope Q_scope.

Inductive Direction : Type := like | dislike.

Global Instance Direction_eq_dec : EqDecision Direction.
Proof. solve_decision. Defined.

(** [direction === 'like'] *)
Definition isLike (d : Direction) : bool :=
  match d with like => true | dislike => false end.

(** What the animation controls drive: the values last given to
    [controls.set] or [controls.start]. *)
Record Pose : Type := mkPose { x : Q; rotate : Q; opacity : Q }.

Definition neutral : Pose := mkPose 0 0 1.

(** The [song] prop and the [useState] variables.  The state of the
    audio element ([isPlaying], [isMuted], [progress], [isLoading]) plays
    no part below and is left out; what is done to the element is in the
    outputs. *)
Record State : Type := mkState {
  song : option Song;
  isDragging : bool;
  imageLoaded : bool;
  albumImage : option string;
  isAnimating : bool;
  previewUrl : option string;
  isSwipeLoading : bool;
  pose : Pose
}.

Inductive Output : Type :=
| OnSwipe (liked : bool)              (* the [onSwipe] prop is called *)
| PostSongDetail (track : string)     (* POST /get-song-detail *)
| CommitAnimation (d : Direction)     (* [controls.start], card flies off *)
| SpringBack                          (* [controls.start({x: 0, rotate: 0})] *)
| FadeOutAudio
| PauseAudio
| ShowOverlay (d : Direction)
| HideOverlay (d : Direction)
| LogError (context : string).

(** [cardRef.current] and [audioRef.current]: the card is in the document
    when the component rendered it (it returns [null] without a song),
    the audio element when there is a preview URL besides. *)
Definition has_song (s : State) : bool := bool_decide (is_Some (song s)).
Definition cardRef (s : State) : bool := has_song s.
Definition audioRef (s : State) : bool :=
  cardRef s && truthy (previewUrl s).

Definition with_pose (p : Pose) (s : State) : State :=
  mkState (song s) (isDragging s) (imageLoaded s) (albumImage s)
          (isAnimating s) (previewUrl s) (isSwipeLoading s) p.
Definition setIsDragging (v : bool) (s : State) : State :=
  mkState (song s) v (imageLoaded s) (albumImage s)
          (isAnimating s) (previewUrl s) (isSwipeLoading s) (pose s).
Definition setImageLoaded (v : bool) (s : State) : State :=
  mkState (song s) (isDragging s) v (albumImage s)
          (isAnimating s) (previewUrl s) (isSwipeLoading s) (pose s).
Definition setAlbumImage (v : option string) (s : State) : State :=
  mkState (song s) (isDragging s) (imageLoaded s) v
          (isAnimating s) (previewUrl s) (isSwipeLoading s) (pose s).
Definition setIsAnimating (v : bool) (s : State) : State :=
  mkState (song s) (isDragging s) (imageLoaded s) (albumImage s)
          v (previewUrl s) (isSwipeLoading s) (pose s).
Definition setPreviewUrl (v : option string) (s : State) : State :=
  mkState (song s) (isDragging s) (imageLoaded s) (albumImage s)
          (isAnimating s) v (isSwipeLoading s) (pose s).
Definition setIsSwipeLoading (v : bool) (s : State) : State :=
  mkState (song s) (isDragging s) (imageLoaded s) (albumImage s)
          (isAnimating s) (previewUrl s) v (pose s).
Definition with_song (v : option Song) (s : State) : State :=
  mkState v (isDragging s) (imageLoaded s) (albumImage s)
          (isAnimating s) (previewUrl s) (isSwipeLoading s) (pose s).

(** *** animateSwipe, up to [await controls.start(...)] *)

(** [None]: the guard returned, nothing is awaited.  [Some]: the state
    setters and outputs before the [await]; the continuation is pending. *)
Definition animateSwipe_begin (direction : Direction) (s : State)
  : option (State * list Output) :=
  if isAnimating s || negb (cardRef s) then None
  else
    let s1 := setIsSwipeLoading true (setIsAnimating true s) in
    let xOffset : Q := if isLike direction then 1000 else -1000 in
    let target := mkPose xOffset (if isLike direction then 45 else -45) 0 in
    Some (with_pose target s1,
          (if audioRef s then [FadeOutAudio] else [])
            ++ [ShowOverlay direction; CommitAnimation direction]).

(** *** animateSwipe, from the settling of [controls.start(...)] on *)
Definition animateSwipe_resume (direction : Direction)
    (settled : Completion unit) (s : State) : State * list Output :=
  match settled with
  | Normal _ =>
      (setIsAnimating false (with_pose neutral s),
       [OnSwipe (isLike direction); HideOverlay direction])
  | Throw _ =>
      (setIsAnimating false (with_pose neutral s),
       [LogError "Animation error:"])
  end.

(** *** The three commit triggers and the drag callbacks *)

Definition onDragStart (s : State) : State := setIsDragging true s.

(** [rotate = offset.x * 0.1]; the overlay styles are not modelled. *)
Definition onDrag (offset_x : Q) (s : State) : State :=
  if negb (cardRef s) || isAnimating s then s
  else with_pose (mkPose (x (pose s)) (offset_x * (1 # 10)) (opacity (pose s))) s.

(** A trigger either leaves everything as it is, or changes the state
    without starting an animation, or starts the commit animation in a
    direction. *)
Inductive Triggered : Type :=
| Ignored
| Settled (s : State) (out : list Output)
| Started (d : Direction) (s : State) (out : list Output).

Definition start (direction : Direction) (s : State) (otherwise : Triggered)
  : Triggered :=
  match animateSwipe_begin direction s with
  | Some (s', out) => Started direction s' out
  | None => otherwise
  end.

Definition onDragEnd (offset_x : Q) (s : State) : Triggered :=
  if isAnimating s then Ignored
  else
    let s1 := setIsDragging false s in
    let swipe := Qabs offset_x in
    if gt swipe 100
    then start (if gt offset_x 0 then like else dislike) s1 (Settled s1 [])
    else Settled (with_pose (mkPose 0 0 (opacity (pose s1))) s1) [SpringBack].

Definition handleKeyDown (key : string) (s : State) : Triggered :=
  if isDragging s || isAnimating s || negb (has_song s) then Ignored
  else if String.eqb key "ArrowLeft" then start dislike s Ignored
  else if String.eqb key "ArrowRight" then start like s Ignored
  else Ignored.

(** [onClick={() => !isAnimating && animateSwipe(d)}] *)
Definition onClick (d : Direction) (s : State) : Triggered :=
  if negb (isAnimating s) then start d s Ignored else Ignored.

(** *** The effects that run when the [song] prop changes *)

(** [useEffect(..., [song])] twice and [useEffect(..., [song?.track_id])]:
    the per-card state is reset, and the detail request goes out when the
    track id is a new one. *)
Definition song_effects (refetch : bool) (s : State) : State * list Output :=
  let s1 := with_pose neutral (setAlbumImage None (setImageLoaded false s)) in
  let pause := if audioRef s then [PauseAudio] else [] in
  let '(s2, post) :=
    match song s ≫= track_id with
    | Some track =>
        if refetch && truthy (Some track)
        then (setImageLoaded false s1, [PostSongDetail track])
        else (s1, [])
    | None => (s1, [])
    end in
  let s3 := if has_song s then setIsSwipeLoading false s2 else s2 in
  (s3, pause ++ post).

(** *** fetchSongDetails, from the settling of the request on *)
Definition fetchSongDetails_resume (reply : Fetched Detail) (s : State) : State :=
  let failed := setImageLoaded true (setPreviewUrl None (setAlbumImage None s)) in
  match reply with
  | Normal response =>
      if negb (ok response) then failed
      else
        match json response with
        | Normal body =>
            setImageLoaded true
              (setPreviewUrl (preview_url (data body))
                 (setAlbumImage (image (data body)) s))
        | Throw _ => failed
        end
  | Throw _ => failed
  end.

(** *** The mounted card with its pending promises *)

Record Card : Type := mkCard {
  view : State;
  animations : list Direction;   (* [controls.start] promises, oldest first *)
  details : list string          (* detail requests not answered yet *)
}.

Inductive Event : Type :=
| DragStart
| Drag (offset_x : Q)
| DragEnd (offset_x : Q)
| KeyDown (key : string)
| Click (d : Direction)
| AnimationSettled (settled : Completion unit)
| SongProp (s : Song)
| DetailSettled (track : string) (reply : Fetched Detail).

Definition posted (out : list Output) : list string :=
  omap (λ o, match o with PostSongDetail t => Some t | _ => None end) out.

Definition triggered (c : Card) (t : Triggered) : Card * list Output :=
  match t with
  | Ignored => (c, [])
  | Settled s out => (mkCard s (animations c) (details c), out)
  | Started d s out => (mkCard s (animations c ++ [d]) (details c), out)
  end.

Definition step (c : Card) (e : Event) : Card * list Output :=
  match e with
  | DragStart =>
      (* [drag={!isAnimating ? "x" : false}] *)
      if isAnimating (view c) then (c, [])
      else (mkCard (onDragStart (view c)) (animations c) (details c), [])
  | Drag o => (mkCard (onDrag o (view c)) (animations c) (details c), [])
  | DragEnd o => triggered c (onDragEnd o (view c))
  | KeyDown k => triggered c (handleKeyDown k (view c))
  | Click d => triggered c (onClick d (view c))
  | AnimationSettled settled =>
      match animations c with
      | [] => (c, [])
      | d :: rest =>
          let '(s, out) := animateSwipe_resume d settled (view c) in
          (mkCard s rest (details c), out)
      end
  | SongProp new =>
      let refetch := negb (bool_decide (track_id new = song (view c) ≫= track_id)) in
      let '(s, out) := song_effects refetch (with_song (Some new) (view c)) in
      (mkCard s (animations c) (details c ++ posted out), out)
  | DetailSettled track reply =>
      if bool_decide (track ∈ details c)
      then (mkCard (fetchSongDetails_resume reply (view c)) (animations c)
                   (remove_first track (details c)), [])
      else (c, [])
  end.

(** The card as first rendered for [s]: initial [useState] values, then
    the mount effects. *)
Definition mount (s : Song) : Card * list Output :=
  let s0 := mkState (Some s) false false None false None false neutral in
  let '(s1, out) := song_effects true s0 in
  (mkCard s1 [] (posted out), out).

Fixpoint run (c : Card) (es : list Event) : Card * list Output :=
  match es with
  | [] => (c, [])
  | e :: es' =>
      let '(c1, out1) := step c e in
      let '(c2, out2) := run c1 es' in
      (c2, out1 ++ out2)
  end.

(** The decisions handed to [onSwipe], in order. *)
Definition decisions (out : list Output) : list bool :=
  omap (λ o, match o with OnSwipe liked => Some liked | _ => None end) out.

(** No commit animation is in progress. *)
Definition at_rest (c : Card) : Prop :=
  isAnimating (view c) = false ∧ animations c = [].

(** The commit animation towards [d] is in progress. *)
Definition animating (c : Card) (d : Direction) : Prop :=
  isAnimating (view c) = true ∧ animations c = [d].

(** [isAnimating] tells whether a [controls.start] promise is pending,
    and there is one at most. *)
Definition consistent (c : Card) : Prop :=
  at_rest c ∨ ∃ d, animating c d.

(** The three commit triggers. *)
Definition is_trigger (e : Event) : bool :=
  match e with
  | DragEnd _ | KeyDown _ | Click _ => true
  | _ => false
  end.

End SongCard.

(** ** The card mounted inside the app *)

Module Swiping.

Global Instance Song_eq_dec : EqDecision Song.
Proof. solve_decision. Defined.

(** [App] renders [<SongCard song={songs[currentSongIndex]} onSwipe={handleSwipe} />]
    while [step === 'swiping' && songs[currentSongIndex]].  [animateSwipe]
    calls, when its animation is over, the [onSwipe] of the render in
    which the commit was triggered: [handlers] keeps, for each pending
    animation of the card, the [App] render its [handleSwipe] closed
    over. *)
Record System : Type := mkSystem {
  flow : Async.Flow;
  card : option SongCard.Card;
  handlers : list App.State
}.

Definition app (sys : System) : App.State := Async.live (flow sys).

(** The card of [c] in an app with nothing in flight. *)
Definition showing (a : App.State) (c : option SongCard.Card) : System :=
  mkSystem (Async.quiet a) c [].

Definition active (a : App.State) : option Song :=
  if decide (App.step a = App.swiping)
  then App.songs a !! App.currentSongIndex a
  else None.

Definition requests (out : list SongCard.Output) : list Effect :=
  (λ t, Post (GetSongDetail t)) <$> SongCard.posted out.

(** The commit animations started in a step of the card. *)
Definition begun (out : list SongCard.Output) : list SongCard.Direction :=
  omap (λ o, match o with SongCard.CommitAnimation d => Some d | _ => None end) out.

(** The step of the card settles its oldest animation. *)
Definition settles (c : SongCard.Card) (e : SongCard.Event) : bool :=
  match e, SongCard.animations c with
  | SongCard.AnimationSettled _, _ :: _ => true
  | _, _ => false
  end.

(** The render that follows a change of the app state: the card goes
    away (its animation with it), or appears, or receives the song now
    under the cursor when the cursor moved or the queue was replaced (a
    queue replaced by an equal one counts as the same). *)
Definition render (before after : App.State) (c : option SongCard.Card)
    (hs : list App.State)
  : option SongCard.Card * list App.State * list Effect :=
  match active after, c with
  | None, _ => (None, [], [])
  | Some s, None =>
      let '(c', out) := SongCard.mount s in (Some c', [], requests out)
  | Some s, Some c0 =>
      if decide (App.currentSongIndex after = App.currentSongIndex before
                 ∧ App.songs after = App.songs before)
      then (Some c0, hs, [])
      else let '(c', out) := SongCard.step c0 (SongCard.SongProp s) in
           (Some c', hs, requests out)
  end.

(** Each decision the card hands to [onSwipe] calls the [handleSwipe] of
    [render]. *)
Fixpoint deliver (ds : list bool) (render : App.State) (f : Async.Flow)
  : Async.Flow * list Effect :=
  match ds with
  | [] => (f, [])
  | liked :: ds' =>
      let '(f1, t1) := Async.onSwipe render liked f in
      let '(f2, t2) := deliver ds' render f1 in
      (f2, t1 ++ t2)
  end.

(** What happens to the system: something happens to the card, or to the
    app around it.  A decision comes from the card only, and the [song]
    prop of the card from the render only. *)
Inductive Event : Type :=
| Card (e : SongCard.Event)
| Flow (e : Async.Event).

Definition step (sys : System) (e : Event) : System * list Effect :=
  match e with
  | Card (SongCard.SongProp _) => (sys, [])
  | Card ce =>
      match card sys with
      | None => (sys, [])
      | Some c =>
          let '(c1, out) := SongCard.step c ce in
          let closed := default (app sys) (head (handlers sys)) in
          let '(f1, t) := deliver (SongCard.decisions out) closed (flow sys) in
          let hs :=
            (if settles c ce then tail (handlers sys) else handlers sys)
              ++ ((λ _, app sys) <$> begun out) in
          (mkSystem f1 (Some c1) hs, requests out ++ t)
      end
  | Flow (Async.Swipe _) => (sys, [])
  | Flow fe =>
      let '(f1, t) := Async.step (flow sys) fe in
      let '(c1, hs, t2) := render (app sys) (Async.live f1) (card sys) (handlers sys) in
      (mkSystem f1 c1 hs, t ++ t2)
  end.

Fixpoint run (sys : System) (es : list Event) : System * list Effect :=
  match es with
  | [] => (sys, [])
  | e :: es' =>
      let '(sys1, t1) := step sys e in
      let '(sys2, t2) := run sys1 es' in
      (sys2, t1 ++ t2)
  end.

(** The swipe decisions posted for a track, in order. *)
Definition swipes_sent (track : string) (t : list Effect) : list bool :=
  omap (λ e, match e with
             | Post (Swipe _ song_index liked) =>
                 if String.eqb song_index track then Some liked else None
             | _ => None
             end) t.

End Swiping.

(** ** components/Recommendations.jsx: the result rows and their players *)

Module Recommendations.

(** One [SongItem]: its state variables and its [<audio>] element
    ([src], and whether it is playing: [play()] was called and neither
    [pause()] nor the end of the track nor a rejection followed). *)
Record SongItem : Type := mkItem {
  previewUrl : option string;
  showAlert : bool;
  src : option string;
  playing : bool
}.

(** [currentlyPlaying] of [Recommendations] and the rows by track id. *)
Record State : Type := mkState {
  currentlyPlaying : option string;
  items : gmap string SongItem
}.

Definition pause (it : SongItem) : SongItem :=
  mkItem (previewUrl it) (showAlert it) (src it) false.
Definition play (it : SongItem) : SongItem :=
  mkItem (previewUrl it) (showAlert it) (src it) true.
Definition setShowAlert (it : SongItem) : SongItem :=
  mkItem (previewUrl it) true (src it) (playing it).
Definition load (url : string) (it : SongItem) : SongItem :=
  mkItem (Some url) (showAlert it) (Some url) (playing it).

Definition at_row (f : SongItem → SongItem) (r : string) (st : State) : State :=
  mkState (currentlyPlaying st) (alter f r (items st)).

(** [const isPlaying = currentlyPlaying === song.track_id] *)
Definition isPlaying (st : State) (r : string) : bool :=
  bool_decide (currentlyPlaying st = Some r).

(** [setCurrentlyPlaying(v)] and the render after it: the row that stops
    being the playing one runs
    [useEffect(() => { if (!isPlaying && audioRef.current) audioRef.current.pause() }, [isPlaying])]. *)
Definition setCurrentlyPlaying (v : option string) (st : State) : State :=
  match currentlyPlaying st with
  | Some a =>
      if bool_decide (v = Some a) then mkState v (items st)
      else mkState v (alter pause a (items st))
  | None => mkState v (items st)
  end.

(** [stopCurrentAudio]: every [<audio>] of the document is paused. *)
Definition stopCurrentAudio (st : State) : State :=
  setCurrentlyPlaying None (mkState (currentlyPlaying st) (pause <$> items st)).

Inductive Branch : Type := fetched | cached.

Global Instance Branch_eq_dec : EqDecision Branch.
Proof. solve_decision. Defined.

(** What a part of [togglePlay] is left waiting for. *)
Inductive Awaiting : Type :=
| Nothing
| AwaitDetail
| AwaitPlay (b : Branch).

(** *** togglePlay, up to its first [await] *)
Definition togglePlay_begin (r : string) (st : State) : State * Awaiting :=
  match items st !! r with
  | None => (st, Nothing)
  | Some it =>
      if isPlaying st r
      then (setCurrentlyPlaying None (at_row pause r st), Nothing)
      else if negb (truthy (previewUrl it))
      then (stopCurrentAudio st, AwaitDetail)
      else (at_row play r (stopCurrentAudio st), AwaitPlay cached)
  end.

(** *** togglePlay, from the settling of the preview request on *)
Definition togglePlay_detail (r : string) (reply : Fetched Detail) (st : State)
  : State * Awaiting :=
  let alert := (at_row setShowAlert r st, Nothing) in
  match reply with
  | Normal response =>
      if negb (ok response) then alert
      else
        match json response with
        | Normal body =>
            match preview_url (data body) with
            | Some url =>
                if truthy (Some url)
                then (at_row play r (at_row (load url) r st), AwaitPlay fetched)
                else alert
            | None => alert
            end
        | Throw _ => alert
        end
  | Throw _ => alert
  end.

(** *** togglePlay, from the settling of [audioRef.current.play()] on *)
Definition togglePlay_played (r : string) (b : Branch)
    (settled : Completion unit) (st : State) : State :=
  match settled with
  | Normal _ => setCurrentlyPlaying (Some r) st
  | Throw _ =>
      let st' := at_row pause r st in
      match b with
      | fetched => at_row setShowAlert r st'
      | cached => st'
      end
  end.

(** [handleEnded] of a row whose track ran to its end. *)
Definition handleEnded (r : string) (st : State) : State :=
  setCurrentlyPlaying None (at_row pause r st).

(** *** The page with its pending promises *)

Record Page : Type := mkPage {
  ui : State;
  requests : list string;            (* preview requests not answered yet *)
  plays : list (string * Branch)     (* [play()] promises not settled yet *)
}.

Inductive Event : Type :=
| Click (r : string)
| DetailSettled (r : string) (reply : Fetched Detail)
| PlaySettled (r : string) (b : Branch) (settled : Completion unit)
| Ended (r : string).

Definition waiting (p : Page) (r : string) (st : State) (w : Awaiting) : Page :=
  match w with
  | Nothing => mkPage st (requests p) (plays p)
  | AwaitDetail => mkPage st (requests p ++ [r]) (plays p)
  | AwaitPlay b => mkPage st (requests p) (plays p ++ [(r, b)])
  end.

Definition step (p : Page) (e : Event) : Page :=
  match e with
  | Click r =>
      let '(st, w) := togglePlay_begin r (ui p) in waiting p r st w
  | DetailSettled r reply =>
      if bool_decide (r ∈ requests p)
      then
        let p' := mkPage (ui p) (remove_first r (requests p)) (plays p) in
        let '(st, w) := togglePlay_detail r reply (ui p) in waiting p' r st w
      else p
  | PlaySettled r b settled =>
      if bool_decide ((r, b) ∈ plays p)
      then mkPage (togglePlay_played r b settled (ui p)) (requests p)
                  (remove_first (r, b) (plays p))
      else p
  | Ended r =>
      match items (ui p) !! r with
      | Some it =>
          if playing it
          then mkPage (handleEnded r (ui p)) (requests p) (plays p)
          else p
      | None => p
      end
  end.

(** The page as first rendered for the recommended tracks. *)
Definition mount (tracks : list string) : Page :=
  mkPage (mkState None (list_to_map ((λ t, (t, mkItem None false None false)) <$> tracks)))
         [] [].

Definition run (p : Page) (es : list Event) : Page := foldl step p es.

(** Is the audio element of row [r] playing? *)
Definition sounding (p : Page) (r : string) : bool :=
  match items (ui p) !! r with
  | Some it => playing it
  | None => false
  end.

End Recommendations.

(** ** Sample data *)

Module Sample.

Definition song0 : Song := mkSong (Some "t0") "First" "A" "pop".
Definition song1 : Song := mkSong (Some "t1") "Second" "B" "rock".
Definition user : UserData := mkUser "Ann" "ann@example.org".

(** Two songs in the queue, the cursor on the first. *)
Definition swiping2 : App.State :=
  App.mkState App.swiping (Some user) (Some "sid") [song0; song1] 0 [].

(** The genre picker right after a successful registration. *)
Definition registered : App.State :=
  (App.run (App.handleRegistration user (success (Some "sid"))) App.initial).1.

(** A genre submission answered with an empty queue. *)
Definition stuck : App.State :=
  (App.run (App.handleStart ["pop"] (success [])) registered).1.

(** The card of the first song, as mounted. *)
Definition card0 : SongCard.Card := (SongCard.mount song0).1.

(** The like button pressed while the card is being dragged. *)
Definition pressed : SongCard.Card :=
  (SongCard.run card0 [SongCard.DragStart; SongCard.Click SongCard.like]).1.

(** The first card replaced by the second before its detail arrived. *)
Definition advanced : SongCard.Card :=
  (SongCard.step card0 (SongCard.SongProp song1)).1.

Definition detail0 : Detail := mkDetail (Some "k.jpg") (Some "k.mp3").

(** The first card shown, nothing in flight. *)
Definition mounted : Swiping.System := Swiping.showing swiping2 (Some card0).

Definition preview (url : string) : Fetched Detail :=
  success (mkDetail None (Some url)).

(** The results are shown, the session is the one of the registration. *)
Definition finished : App.State :=
  App.mkState App.recommendations (Some user) (Some "sid") [song0; song1] 2
              [mkScored song1 (3 # 5) 70 (1 # 2)].

(** The results page for two tracks. *)
Definition results : Recommendations.Page := Recommendations.mount ["a"; "b"].

End Sample.

(** ** components/GenreSelection.jsx: the genre picker *)

Module GenreSelection.

(** The [useState] variables.  [selectedGenres] is a [Set]: its elements
    in insertion order, which is the order [Array.from] gives them in. *)
Record State : Type := mkState {
  genres : list string;
  selectedGenres : list string;
  isLoading : bool;
  error : option string
}.

Definition initial : State := mkState [] [] true None.

(** [Set.prototype.has], [delete] and [add]. *)
Definition has (g : string) (set : list string) : bool := bool_decide (g ∈ set).
Definition delete (g : string) (set : list string) : list string :=
  filter (λ x, x ≠ g) set.
Definition add (g : string) (set : list string) : list string :=
  if has g set then set else set ++ [g].

(** The updater that [toggleGenre] hands to [setSelectedGenres]. *)
Definition toggleGenre (genre : string) (prev : list string) : list string :=
  let newSelected := prev in
  if has genre newSelected then delete genre newSelected
  else if bool_decide (length newSelected < 5) then add genre newSelected
  else newSelected.

(** [fetchGenres], from the settling of the request on; the [genres] of
    a body that parses is taken to be an array of strings. *)
Definition fetchGenres_resume (reply : Fetched (list string)) (s : State) : State :=
  let failed :=
    mkState (genres s) (selectedGenres s) false
            (Some "Failed to load genres. Please try again.") in
  match reply with
  | Normal response =>
      if negb (ok response) then failed
      else
        match json response with
        | Normal body => mkState (data body) (selectedGenres s) false (error s)
        | Throw _ => failed
        end
  | Throw _ => failed
  end.

(** The grid of genre buttons is rendered when the list is loaded and
    there is no error; a button is disabled when five genres are selected
    and its own is not among them. *)
Definition grid_shown (s : State) : bool :=
  negb (isLoading s) && negb (truthy (error s)).
Definition disabled (s : State) (g : string) : bool :=
  bool_decide (length (selectedGenres s) = 5) && negb (has g (selectedGenres s)).

(** The picker with its pending request. *)
Record Picker : Type := mkPicker { view : State; fetching : bool }.

Inductive Event : Type :=
| GenresSettled (reply : Fetched (list string))
| ClickGenre (g : string)
| ClickStart.

(** [onStart(Array.from(selectedGenres))] *)
Inductive Output : Type := OnStart (selected : list string).

Definition step (p : Picker) (e : Event) : Picker * list Output :=
  match e with
  | GenresSettled reply =>
      if fetching p then (mkPicker (fetchGenres_resume reply (view p)) false, [])
      else (p, [])
  | ClickGenre g =>
      if grid_shown (view p) && has g (genres (view p)) && negb (disabled (view p) g)
      then (mkPicker (mkState (genres (view p))
                              (toggleGenre g (selectedGenres (view p)))
                              (isLoading (view p)) (error (view p)))
                     (fetching p), [])
      else (p, [])
  | ClickStart =>
      (* [disabled={selectedGenres.size === 0}] *)
      if bool_decide (length (selectedGenres (view p)) = 0) then (p, [])
      else (p, [OnStart (selectedGenres (view p))])
  end.

(** The picker as mounted: the genre request is out. *)
Definition mount : Picker := mkPicker initial true.

Fixpoint run (p : Picker) (es : list Event) : Picker * list Output :=
  match es with
  | [] => (p, [])
  | e :: es' =>
      let '(p1, out1) := step p e in
      let '(p2, out2) := run p1 es' in
      (p2, out1 ++ out2)
  end.

(** The selection is a set of at most five of the genres offered. *)
Definition valid (p : Picker) : Prop :=
  NoDup (selectedGenres (view p)) ∧
  length (selectedGenres (view p)) ≤ 5 ∧
  selectedGenres (view p) ⊆ genres (view p) ∧
  (fetching p = true → view p = initial).

(** What the genre request has to give. *)
Definition genres_of (reply : Fetched (list string)) : option (list string) :=
  match reply with
  | Normal response =>
      if ok response
      then match json response with
           | Normal body => Some (data body)
           | Throw _ => None
           end
      else None
  | Throw _ => None
  end.

End GenreSelection.

(** ** components/LoginForm.jsx: the registration form *)

Module LoginForm.

(** The values of the two inputs are any strings the user types, so they
    are kept as JavaScript has them: sequences of UTF-16 code units. *)
Definition JsString : Type := list N.

(** The code units of WhiteSpace and LineTerminator: what [trim] strips
    and what [\s] matches (and [\S] does not). *)
Definition is_space (c : N) : bool :=
  ((c =? 9) || (c =? 10) || (c =? 11) || (c =? 12) || (c =? 13) || (c =? 32)
   || (c =? 160) || (c =? 5760) || ((8192 <=? c) && (c <=? 8202))
   || (c =? 8232) || (c =? 8233) || (c =? 8239) || (c =? 8287)
   || (c =? 12288) || (c =? 65279))%N.

Fixpoint trimStart (s : JsString) : JsString :=
  match s with
  | c :: s' => if is_space c then trimStart s' else s
  | [] => []
  end.

(** [String.prototype.trim] *)
Definition trim (s : JsString) : JsString :=
  reverse (trimStart (reverse (trimStart s))).

(** [!s] on a string *)
Definition falsy (s : JsString) : bool :=
  match s with
  | [] => true
  | _ => false
  end.

(** A regular expression that is a sequence of character classes, each
    taken once or ([+]) once or more. *)
Inductive Term : Type :=
| One (class : N → bool)
| Many (class : N → bool).

Definition Pattern : Type := list Term.

Definition non_space (c : N) : bool := negb (is_space c).
Definition char (a : N) (c : N) : bool := (c =? a)%N.

(** [/\S+@\S+\.\S+/]; the code units of [@] and [.] are 64 and 46. *)
Definition email_pattern : Pattern :=
  [Many non_space; One (char 64); Many non_space; One (char 46); Many non_space].

(** The backtracking matcher at one start position: [class+] takes as
    many code units as it can and gives them back one by one until the
    rest of the pattern matches. *)
Fixpoint many (class : N → bool) (rest : JsString → bool) (s : JsString) : bool :=
  match s with
  | c :: s' => class c && (many class rest s' || rest s')
  | [] => false
  end.

Fixpoint matches (r : Pattern) (s : JsString) : bool :=
  match r with
  | [] => true
  | One class :: r' =>
      match s with
      | c :: s' => class c && matches r' s'
      | [] => false
      end
  | Many class :: r' => many class (matches r') s
  end.

(** [RegExp.prototype.test] of a pattern without flags: the start
    positions are tried from the left. *)
Fixpoint test (r : Pattern) (s : JsString) : bool :=
  matches r s ||
  match s with
  | _ :: s' => test r s'
  | [] => false
  end.

Record FormData : Type := mkForm { name : JsString; email : JsString }.

(** The [errors] object: its two possible keys. *)
Record Errors : Type := mkErrors {
  name_error : option string;
  email_error : option string
}.

Definition no_errors : Errors := mkErrors None None.

(** [Object.keys(newErrors).length] *)
Definition keys_length (e : Errors) : nat :=
  length (omap id [name_error e; email_error e]).

Record State : Type := mkState {
  formData : FormData;
  errors : Errors;
  isLoading : bool
}.

Definition initial : State := mkState (mkForm [] []) no_errors false.

(** [validateForm]: the errors it sets and the value it returns. *)
Definition validateForm (s : State) : State * bool :=
  let newErrors := no_errors in
  let newErrors :=
    if falsy (trim (name (formData s)))
    then mkErrors (Some "Name is required") (email_error newErrors)
    else newErrors in
  let newErrors :=
    if falsy (trim (email (formData s)))
    then mkErrors (name_error newErrors) (Some "Email is required")
    else if negb (test email_pattern (email (formData s)))
    then mkErrors (name_error newErrors) (Some "Please enter a valid email")
    else newErrors in
  (mkState (formData s) newErrors (isLoading s),
   bool_decide (keys_length newErrors = 0)).

Inductive Output : Type := OnSubmit (data : FormData).

Definition submitted (o : Output) : FormData :=
  match o with
  | OnSubmit data => data
  end.

(** [handleSubmit] up to [await onSubmit(formData)], and its [finally],
    which runs whether [onSubmit] resolved or rejected. *)
Definition handleSubmit_begin (s : State) : State * list Output :=
  let '(s1, valid) := validateForm s in
  if valid
  then (mkState (formData s1) (errors s1) true, [OnSubmit (formData s1)])
  else (s1, []).

Definition handleSubmit_resume (s : State) : State :=
  mkState (formData s) (errors s) false.

(** The form with the submissions that have not settled. *)
Record Form : Type := mkFormView { view : State; pending : list FormData }.

Inductive Event : Type :=
| ChangeName (value : JsString)
| ChangeEmail (value : JsString)
| Submit
| Settled (outcome : Completion unit).

(** Both inputs and the submit button are disabled while [isLoading].
    A [Submit] is the form's submit event reaching [handleSubmit], with
    whatever the two inputs hold. *)
Definition step (f : Form) (e : Event) : Form * list Output :=
  let s := view f in
  match e with
  | ChangeName value =>
      if isLoading s then (f, [])
      else (mkFormView (mkState (mkForm value (email (formData s)))
                                (errors s) (isLoading s)) (pending f), [])
  | ChangeEmail value =>
      if isLoading s then (f, [])
      else (mkFormView (mkState (mkForm (name (formData s)) value)
                                (errors s) (isLoading s)) (pending f), [])
  | Submit =>
      if isLoading s then (f, [])
      else
        let '(s1, out) := handleSubmit_begin s in
        (mkFormView s1 (pending f ++ (submitted <$> out)), out)
  | Settled _ =>
      match pending f with
      | _ :: rest => (mkFormView (handleSubmit_resume s) rest, [])
      | [] => (f, [])
      end
  end.

Definition mount : Form := mkFormView initial [].

Fixpoint run (f : Form) (es : list Event) : Form * list Output :=
  match es with
  | [] => (f, [])
  | e :: es' =>
      let '(f1, out1) := step f e in
      let '(f2, out2) := run f1 es' in
      (f2, out1 ++ out2)
  end.

(** The string has a part [a ++ "@" ++ b ++ "." ++ c] with [a], [b] and
    [c] not empty and free of white space. *)
Definition solid (a : JsString) : Prop := a ≠ [] ∧ Forall (λ c, non_space c = true) a.
Definition has_address (s : JsString) : Prop :=
  ∃ before a b c after,
    s = before ++ a ++ [64%N] ++ b ++ [46%N] ++ c ++ after ∧
    solid a ∧ solid b ∧ solid c.
Definition blank (s : JsString) : Prop := Forall (λ c, is_space c = true) s.
Definition acceptable (d : FormData) : Prop :=
  ¬ blank (name d) ∧ has_address (email d).

(** Either nothing is in flight, or the one submission in flight is the
    accepted content of the form, which is locked. *)
Definition idle (f : Form) : Prop :=
  isLoading (view f) = false ∧ pending f = [].
Definition in_flight (f : Form) : Prop :=
  isLoading (view f) = true ∧ pending f = [formData (view f)] ∧
  acceptable (formData (view f)).

End LoginForm.

(** ** Reading the traces and the states of the flow *)

Module Trace.

(** The requests posted in a trace, in order. *)
Definition posts (t : list Effect) : list Request :=
  omap (λ e, match e with Post r => Some r | _ => None end) t.

(** The messages shown to the user with [alert], in order. *)
Definition alerts (t : list Effect) : list string :=
  omap (λ e, match e with Alert m => Some m | _ => None end) t.

(** The message of the [Error] a failed call ends in: the body's [error]
    when the status is not a success and the body says one, the handler's
    own text otherwise, and the rejection's message when the network or
    the JSON parser failed. *)
Definition failure_message {A} (reply : Fetched A) (fallback : string) : string :=
  match reply with
  | Throw m => m
  | Normal response =>
      match json response with
      | Throw m => m
      | Normal body => or_else (error body) fallback
      end
  end.

End Trace.

Module Flow.
Import App.

(** What holds of the state in each step. *)
Definition well_formed (s : State) : Prop :=
  match step s with
  | registration => s = initial
  | genres =>
      is_Some (userData s) ∧ songs s = [] ∧ currentSongIndex s = 0 ∧ recs s = []
  | swiping =>
      is_Some (userData s) ∧ recs s = [] ∧
      (currentSongIndex s < length (songs s)
       ∨ songs s = [] ∧ currentSongIndex s = 0)
  | loading =>
      is_Some (userData s) ∧ recs s = [] ∧ songs s ≠ [] ∧
      currentSongIndex s = length (songs s)
  | recommendations =>
      is_Some (userData s) ∧ recs s ≠ [] ∧ truthy (sessionId s) = true ∧
      songs s ≠ [] ∧ currentSongIndex s = length (songs s)
  end.

End Flow.

Module Sample2.



Definition row0 : ScoredSong := mkScored Sample.song1 (3 # 5) 70 (1 # 2).

(** A whole run: registration, one genre, one song liked, one result. *)
Definition started : App.State :=
  (App.run (App.handleStart ["pop"] (success [Sample.song0])) Sample.registered).1.
Definition swiped : App.State :=
  (App.run (App.handleSwipe true (success tt)) started).1.
Definition shown : App.State :=
  (App.run (App.getRecommendations (success (Some [row0]))) swiped).1.

(** A registration whose reply has no [session_id]. *)
Definition anonymous : App.State :=
  (App.run (App.handleRegistration Sample.user (success None)) App.initial).1.

End Sample2.

(** ** Sample runs with calls in flight, and runs without *)

Module Overlaps.
Import Async.

(** The genre picker's start button pressed twice; the first queue
    arrives and its first song is liked; then the second queue arrives. *)
Definition double_start : list Event :=
  [Submit Sample.user; RegistrationSettled 0 (success (Some "sid"));
   Start ["pop"]; Start ["pop"];
   StartSettled 0 (success [Sample.song0; Sample.song1]);
   Swipe true; SwipeSettled 0 (success tt);
   StartSettled 0 (success [Sample.song1; Sample.song0])].

(** A swipe posted twice for the first song; the second reply comes
    after the session has ended in a failed recommendations call and a
    forced restart, and then the genres are submitted again. *)
Definition late_swipe : list Event :=
  [Submit Sample.user; RegistrationSettled 0 (success (Some "sid"));
   Start ["pop"]; StartSettled 0 (success [Sample.song0; Sample.song1]);
   Swipe true; Swipe true; SwipeSettled 0 (success tt);
   Swipe false; SwipeSettled 1 (success tt);
   TimerFired 0; RecommendationsSettled 0 (Throw "Failed to fetch");
   SwipeSettled 0 (success tt);
   Start ["pop"]; StartSettled 0 (success [Sample.song0; Sample.song1])].

(** A whole session, every call answered before the next: registration,
    one genre, one song liked, one recommendation. *)
Definition session : list Round :=
  [Register Sample.user (success (Some "sid"));
   Choose ["pop"] (success [Sample.song0]);
   Decide true (success tt);
   Recommend (success (Some [Sample2.row0]))].

(** Nothing is in flight but, in the loading step, the timer armed by the
    last swipe, whose render has the session id of the live state. *)
Definition settled (f : Flow) : Prop :=
  registrations f = [] ∧ starts f = [] ∧ swipes f = [] ∧ lookups f = [] ∧
  if decide (App.step (live f) = App.loading)
  then ∃ render, timers f = [render] ∧ App.sessionId render = App.sessionId (live f)
  else timers f = [].

(** The last card of a queue, nothing in flight. *)
Definition last_card : Swiping.System :=
  Swiping.showing
    (App.mkState App.swiping (Some Sample.user) (Some "sid") [Sample.song0] 0 [])
    (Some Sample.card0).

(** A card committed twice before the backend has answered the first
    swipe. *)
Definition double_commit (d1 d2 : SongCard.Direction) : list Swiping.Event :=
  [Swiping.Card (SongCard.Click d1);
   Swiping.Card (SongCard.AnimationSettled (Normal tt));
   Swiping.Card (SongCard.Click d2);
   Swiping.Card (SongCard.AnimationSettled (Normal tt))].

End Overlaps.

(** ** Reading the runs of a card *)

Module CardTrace.
Import SongCard.

(** The directions of the commit animations started, in order. *)
Definition started (out : list Output) : list Direction :=
  omap (λ o, match o with CommitAnimation d => Some d | _ => None end) out.

(** Every event but an animation that fails. *)
Definition no_failure (e : Event) : bool :=
  match e with
  | AnimationSettled (Throw _) => false
  | _ => true
  end.

(** Every event but a new [song] prop. *)
Definition same_song (e : Event) : bool :=
  match e with
  | SongProp _ => false
  | _ => true
  end.

(** Every event but a settled detail request. *)
Definition no_detail (e : Event) : bool :=
  match e with
  | DetailSettled _ _ => false
  | _ => true
  end.

(** What a settled detail request has to give: the body of a success
    reply that parses, nothing otherwise. *)
Definition detail_of (reply : Fetched Detail) : option Detail :=
  match reply with
  | Normal response =>
      if ok response
      then match json response with
           | Normal body => Some (data body)
           | Throw _ => None
           end
      else None
  | Throw _ => None
  end.

(** The keys pressed, as events. *)
Definition keys (ks : list string) : list Event := KeyDown <$> ks.

End CardTrace.

(** ** A swiping session: one commit per song *)

Module Session.
Import SongCard.

(** One commit by a button, answered before anything else happens: the
    press, the end of the animation, the reply to the swipe. *)
Definition commit (c : Direction * Fetched unit) : list Swiping.Event :=
  [Swiping.Card (Click c.1);
   Swiping.Card (AnimationSettled (Normal tt));
   Swiping.Flow (Async.SwipeSettled 0 c.2)].

Definition commits (cs : list (Direction * Fetched unit)) : list Swiping.Event :=
  concat (commit <$> cs).

(** The swipe decisions posted in a trace: track id and decision. *)
Definition swipes (t : list Effect) : list (string * bool) :=
  omap (λ e, match e with
             | Post (Swipe _ track liked) => Some (track, liked)
             | _ => None
             end) t.

(** The app is in the swiping step with nothing in flight and shows the
    song under the cursor on a card at rest. *)
Definition ready (sys : Swiping.System) : Prop :=
  Swiping.flow sys = Async.quiet (Swiping.app sys) ∧
  Swiping.handlers sys = [] ∧
  App.step (Swiping.app sys) = App.swiping ∧
  is_Some (App.songs (Swiping.app sys) !! App.currentSongIndex (Swiping.app sys)) ∧
  ∃ c, Swiping.card sys = Some c ∧ at_rest c ∧ is_Some (song (view c)).

(** The track ids of the songs from the cursor on. *)
Definition remaining (a : App.State) : list string :=
  (λ s, default "" (track_id s)) <$> drop (App.currentSongIndex a) (App.songs a).

End Session.

(** ** Reading the runs of the results page *)

Module Results.
Import Recommendations.

(** At most one audio element of the page is playing. *)
Definition at_most_one (p : Page) : Prop :=
  ∀ r1 r2, sounding p r1 = true → sounding p r2 = true → r1 = r2.

(** Nothing is awaited, and a row that plays is the one the page shows
    as playing. *)
Definition quiet (p : Page) : Prop :=
  requests p = [] ∧ plays p = [] ∧
  ∀ r, sounding p r = true → currentlyPlaying (ui p) = Some r.

(** A press on the play button of row [r] followed, before anything else
    happens, by the settling of what it awaits: the preview request (with
    [reply]) when no preview is cached, then the [play()] promise. *)
Definition press (p : Page) (r : string) (reply : Fetched Detail)
    (settled : Completion unit) : list Event :=
  match items (ui p) !! r with
  | None => [Click r]
  | Some it =>
      if isPlaying (ui p) r then [Click r]
      else if truthy (previewUrl it)
      then [Click r; PlaySettled r cached settled]
      else [Click r; DetailSettled r reply; PlaySettled r fetched settled]
  end.

(** Row [r] shows the alert "Preview not available". *)
Definition alerted (p : Page) (r : string) : bool :=
  match items (ui p) !! r with
  | Some it => showAlert it
  | None => false
  end.

(** Row [r] has a preview URL. *)
Definition has_preview (p : Page) (r : string) : bool :=
  match items (ui p) !! r with
  | Some it => truthy (previewUrl it)
  | None => false
  end.

(** The row that was told to play and nothing else sounds, and the page
    shows nothing as playing yet. *)
Definition starting (r : string) (st : State) : Prop :=
  currentlyPlaying st = None ∧
  ∀ req pl r', sounding (mkPage st req pl) r' = true → r' = r.

(** A series of presses, each settled before the next. *)
Fixpoint presses (p : Page)
    (l : list (string * Fetched Detail * Completion unit)) : Page :=
  match l with
  | [] => p
  | (r, reply, settled) :: l' => presses (run p (press p r reply settled)) l'
  end.

End Results.

(** * Properties *)

(** ** The flow controller ([App.jsx]) *)

Module FlowController.
Import App.

Ltac handler :=
  unfold run, handleRegistration, handleStart, handleSwipe, getRecommendations,
    handleRestart, try_catch, bind, fetch, emit, await, throw, ret,
    setStep, setUserData, setSessionId, setSongs, setCurrentSongIndex,
    setRecommendations.

Lemma run_handleRestart s :
  run handleRestart s =
    (mkState genres (userData s) None [] 0 [],
     [GAEvent "User Flow" "Restart App" None]).
Proof. reflexivity. Qed.

Lemma handleSwipe_past_end s liked reply :
  length (songs s) ≤ currentSongIndex s →
  run (handleSwipe liked reply) s = (s, []).
Proof.
  intros Hend. handler. by rewrite bool_decide_eq_true_2.
Qed.

Lemma handleSwipe_failed s liked reply :
  failed reply = true → (run (handleSwipe liked reply) s).1 = s.
Proof.
  intros Hfail. destruct s as [stp ud sid q i rc]. handler; simpl.
  case_bool_decide; [done|].
  destruct (truthy _); simpl; [|done].
  destruct reply as [[[] [body|m]]|m]; simpl in *; done.
Qed.

Lemma handleSwipe_failed_trace s liked reply track :
  failed reply = true →
  songs s !! currentSongIndex s ≫= track_id = Some track →
  truthy (Some track) = true →
  ∃ message,
    (run (handleSwipe liked reply) s).2 =
      [GAEvent "User Interaction" "Song Swipe"
         (Some (if liked then "Like" else "Dislike"));
       Post (Swipe (sessionId s) track liked);
       ConsoleError "Error handling swipe:" message;
       GAEvent "Error" "Swipe Failed" (Some message);
       Alert ("Error recording your choice: " +:+ message)].
Proof.
  intros Hfail Htrack Htruthy. handler; simpl.
  assert (Hin : ¬ length (songs s) ≤ currentSongIndex s).
  { intros Hle. apply lookup_ge_None_2 in Hle. by rewrite Hle in Htrack. }
  rewrite bool_decide_eq_false_2 by done.
  rewrite Htrack, Htruthy; simpl.
  destruct reply as [[[] [body|m]]|m]; simpl in *; try done; eauto.
Qed.

Lemma handleSwipe_accepted s liked reply song :
  accepted reply = true →
  songs s !! currentSongIndex s = Some song →
  truthy (track_id song) = true →
  run (handleSwipe liked reply) s =
    (mkState (if bool_decide (length (songs s) ≤ currentSongIndex s + 1)
              then loading else step s)
             (userData s) (sessionId s) (songs s) (currentSongIndex s + 1) (recs s),
     [GAEvent "User Interaction" "Song Swipe"
        (Some (if liked then "Like" else "Dislike"));
      Post (Swipe (sessionId s) (default "" (track_id song)) liked)]
       ++ if bool_decide (length (songs s) ≤ currentSongIndex s + 1)
          then [SetTimeout_getRecommendations 1500] else []).
Proof.
  intros Hok Hsong Htruthy. handler; simpl.
  assert (Hin : ¬ length (songs s) ≤ currentSongIndex s).
  { intros Hle. apply lookup_ge_None_2 in Hle. by rewrite Hle in Hsong. }
  rewrite bool_decide_eq_false_2 by done.
  rewrite Hsong; simpl. rewrite Htruthy; simpl.
  destruct reply as [[[] j]|m]; simpl in *; try done.
  case_bool_decide; destruct s; reflexivity.
Qed.

Lemma getRecommendations_failed s reply :
  failed reply = true →
  (run (getRecommendations reply) s).1 = mkState genres (userData s) None [] 0 [].
Proof.
  intros Hfail. handler; simpl.
  destruct (truthy (sessionId s)); simpl; [|done].
  destruct reply as [[[] [body|m]]|m]; simpl in *; done.
Qed.

Lemma getRecommendations_no_rows s reply rows :
  carries reply rows → no_length rows = true →
  (run (getRecommendations reply) s).1 = mkState genres (userData s) None [] 0 [].
Proof.
  intros (response & body & -> & Hok & Hjson & <-) Hrows. handler; simpl.
  destruct (truthy (sessionId s)); simpl; [|done].
  rewrite Hjson, Hok; simpl. by rewrite Hrows.
Qed.

Lemma getRecommendations_no_session s reply :
  truthy (sessionId s) = false →
  (run (getRecommendations reply) s).1 = mkState genres (userData s) None [] 0 [].
Proof. intros Hs. handler; simpl. by rewrite Hs. Qed.

Lemma handleStart_cases s gs reply :
  (∃ q, carries reply q ∧
     (run (handleStart gs reply) s).1 =
       mkState swiping (userData s) (sessionId s) q (currentSongIndex s) (recs s))
  ∨ (run (handleStart gs reply) s).1 = s.
Proof.
  destruct s as [stp ud sid q i rc]. handler; simpl.
  destruct reply as [[[] [body|m]]|m]; simpl; eauto.
  left. exists (data body). split; [|done].
  by exists (mkResponse true (Normal body)), body.
Qed.

Lemma handleStart_carries s gs reply q :
  carries reply q →
  (run (handleStart gs reply) s).1 =
    mkState swiping (userData s) (sessionId s) q (currentSongIndex s) (recs s).
Proof.
  intros (response & body & -> & Hok & Hjson & <-). handler; simpl.
  by rewrite Hjson, Hok.
Qed.

Lemma handleRegistration_cases s user reply :
  (∃ sid, (run (handleRegistration user reply) s).1 =
       mkState genres (Some user) sid (songs s) (currentSongIndex s) (recs s))
  ∨ (run (handleRegistration user reply) s).1 = s.
Proof.
  destruct s as [stp ud sid q i rc]. handler; simpl.
  destruct reply as [[[] [body|m]]|m]; simpl; eauto.
Qed.

Lemma getRecommendations_cases s reply :
  (∃ rows, (run (getRecommendations reply) s).1 =
       mkState recommendations (userData s) (sessionId s) (songs s)
               (currentSongIndex s) rows ∧ truthy (sessionId s) = true)
  ∨ (run (getRecommendations reply) s).1 = mkState genres (userData s) None [] 0 [].
Proof.
  destruct s as [stp ud sid q i rc]. handler; simpl.
  destruct (truthy sid) eqn:Hsid; simpl; [|by right].
  destruct reply as [[[] [body|m]]|m]; simpl; eauto.
  destruct (no_length (data body)); simpl; eauto.
Qed.


Lemma handleSwipe_cases s liked reply :
  (run (handleSwipe liked reply) s).1 = s
  ∨ (run (handleSwipe liked reply) s).1 =
      mkState (if bool_decide (length (songs s) ≤ currentSongIndex s + 1)
               then loading else step s)
              (userData s) (sessionId s) (songs s) (currentSongIndex s + 1) (recs s).
Proof.
  destruct (accepted reply) eqn:Hreply; [|left; apply handleSwipe_failed;
    by destruct reply as [[[] ?]|?]].
  destruct (songs s !! currentSongIndex s) as [song|] eqn:Hsong.
  - destruct (truthy (track_id song)) eqn:Htruthy.
    + right. by erewrite handleSwipe_accepted.
    + left. destruct s as [stp ud sid q i rc]; simpl in *. handler; simpl.
      case_bool_decide; [done|]. rewrite Hsong; simpl. by rewrite Htruthy.
  - left. rewrite handleSwipe_past_end; [done|]. by apply lookup_ge_None_1.
Qed.

Lemma timers_app t1 t2 : timers (t1 ++ t2) = timers t1 ++ timers t2.
Proof. apply omap_app. Qed.

(** The steps, cursors and timers of a series of accepted commits that
    takes the cursor to the end of the queue. *)
Lemma swipe_log_to_the_end ds : ∀ s,
  ds ≠ [] →
  step s = swiping →
  Forall (λ song, truthy (track_id song) = true) (songs s) →
  Forall (λ d, accepted d.2 = true) ds →
  currentSongIndex s + length ds = length (songs s) →
  step <$> (swipe_log ds s).*1 = replicate (length ds - 1) swiping ++ [loading] ∧
  currentSongIndex <$> (swipe_log ds s).*1 = seq (currentSongIndex s + 1) (length ds) ∧
  timers (concat (swipe_log ds s).*2) = [1500].
Proof.
  induction ds as [|[liked reply] ds IH]; intros s Hne Hstep Hvalid Hok Hlen; [done|].
  apply Forall_cons in Hok as [Hreply Hok]. simpl in Hreply, Hlen.
  destruct (lookup_lt_is_Some_2 (songs s) (currentSongIndex s)) as [song Hsong]; [lia|].
  assert (Htruthy : truthy (track_id song) = true).
  { eapply (Forall_lookup_1 _ _ _ _ Hvalid Hsong). }
  pose proof (handleSwipe_accepted s liked reply song Hreply Hsong Htruthy) as Hrun.
  cbn [swipe_log]. rewrite Hrun. cbn [fst snd fmap list_fmap concat].
  destruct ds as [|d ds'].
  - rewrite bool_decide_eq_true_2 by (simpl in Hlen; lia). simpl.
    repeat split; done.
  - rewrite bool_decide_eq_false_2 by (simpl in Hlen; lia).
    set (s' := mkState _ _ _ _ _ _).
    destruct (IH s') as (IHstep & IHidx & IHtimers); try done.
    { simpl in *. lia. }
    cbn [fst snd]. rewrite timers_app, IHstep, IHidx, IHtimers. simpl.
    rewrite Nat.sub_0_r, Hstep. repeat split; try done.
    subst s'; simpl. by rewrite (Nat.add_1_r (currentSongIndex s + 1)).
Qed.

(** In the registration and genre steps the cursor is at the start. *)
Lemma cursor_at_start s :
  reachable s → step s = registration ∨ step s = genres → currentSongIndex s = 0.
Proof.
  intros Hreach. induction Hreach as [|s s' _ IH Hstep]; [done|].
  destruct Hstep as [user reply Hs|gs reply Hs|liked reply Hs Hsong|reply Hs|Hs].
  - destruct (handleRegistration_cases s user reply) as [[sid ->]| ->]; simpl; auto.
  - destruct (handleStart_cases s gs reply) as [(q & _ & ->)| ->]; simpl; [|auto].
    intros [|]; done.
  - destruct (handleSwipe_cases s liked reply) as [->| ->]; simpl.
    + rewrite Hs. intros [|]; done.
    + case_bool_decide; rewrite ?Hs; intros [|]; done.
  - destruct (getRecommendations_cases s reply) as [(rows & -> & _)| ->]; simpl; [|done].
    intros [|]; done.
  - rewrite run_handleRestart. done.
Qed.

(** Once the session id is gone outside the registration step, no run of
    the flow brings it back or reaches the results. *)
Lemma session_never_returns s0 s :
  reaches s0 s →
  sessionId s0 = None → step s0 ≠ registration → step s0 ≠ recommendations →
  sessionId s = None ∧ step s ≠ registration ∧ step s ≠ recommendations.
Proof.
  intros Hreach H0 H1 H2. induction Hreach as [|s s' _ (IHs & IHr & IHc) Hstep]; [done|].
  destruct Hstep as [user reply Hs|gs reply Hs|liked reply Hs Hsong|reply Hs|Hs]; try done.
  - destruct (handleStart_cases s gs reply) as [(q & _ & ->)| ->]; simpl; done.
  - destruct (handleSwipe_cases s liked reply) as [->| ->]; simpl; [done|].
    case_bool_decide; rewrite ?Hs; done.
  - rewrite getRecommendations_no_session; [done|]. by rewrite IHs.
Qed.


(** C1 (what the code does): a restart, explicit or forced by a failed
    recommendations request, leaves the genre step with an empty queue,
    the cursor at 0 and no recommendations, and it sets the session id
    to null, whatever it was. *)
Theorem restart_drops_session s :
  (run handleRestart s).1 = mkState genres (userData s) None [] 0 [] ∧
  ∀ reply, failed reply = true →
    (run (getRecommendations reply) s).1 = (run handleRestart s).1.
Proof.
  split; [done|]. intros reply Hfail. by rewrite getRecommendations_failed.
Qed.

(** The restart from the results of a finished run: the session id "sid"
    is gone. *)
Lemma restart_from_results :
  sessionId Sample.finished = Some "sid" ∧
  run handleRestart Sample.finished =
    (mkState genres (Some Sample.user) None [] 0 [],
     [GAEvent "User Flow" "Restart App" None]).
Proof. by vm_compute. Qed.

(** After a restart no run of the flow shows recommendations again:
    [getRecommendations] requires the session id that the restart removed,
    and only the registration step, which is not returned to, sets one. *)
Lemma restart_dead_end s s' :
  reaches (run handleRestart s).1 s' →
  sessionId s' = None ∧ step s' ≠ recommendations.
Proof.
  intros Hreach.
  by destruct (session_never_returns _ _ Hreach) as (? & _ & ?).
Qed.

(** C2 (the claim fails): a failed swipe call leaves the cursor where it
    was, here on 0, not on 1. *)
Lemma swipe_failure_does_not_advance :
  failed (failure (A := unit) (Some "boom") tt) = true ∧
  currentSongIndex Sample.swiping2 = 0 ∧
  currentSongIndex
    (run (handleSwipe true (failure (Some "boom") tt)) Sample.swiping2).1 = 0 ∧
  currentSongIndex
    (run (handleSwipe true (failure (Some "boom") tt)) Sample.swiping2).1
    ≠ currentSongIndex Sample.swiping2 + 1.
Proof. vm_compute. repeat split; discriminate. Qed.

(** C2 (amended): when the backend swipe call fails, the whole state is
    left as it was, so the cursor does not advance and there is nothing
    to roll back; when the call was issued for the active song, the trace
    ends with the alert that reports the failure. *)
Theorem swipe_failure_keeps_cursor s liked reply :
  failed reply = true →
  (run (handleSwipe liked reply) s).1 = s ∧
  ∀ track,
    songs s !! currentSongIndex s ≫= track_id = Some track →
    truthy (Some track) = true →
    ∃ message,
      (run (handleSwipe liked reply) s).2 =
        [GAEvent "User Interaction" "Song Swipe"
           (Some (if liked then "Like" else "Dislike"));
         Post (Swipe (sessionId s) track liked);
         ConsoleError "Error handling swipe:" message;
         GAEvent "Error" "Swipe Failed" (Some message);
         Alert ("Error recording your choice: " +:+ message)].
Proof.
  intros Hfail. split; [by apply handleSwipe_failed|].
  intros track Htrack Htruthy. by apply handleSwipe_failed_trace.
Qed.

(** A refused like on the first of two songs. *)
Lemma swipe_failure_keeps_cursor_witness :
  (run (handleSwipe true (failure (Some "boom") tt)) Sample.swiping2).1
  = Sample.swiping2.
Proof.
  exact (proj1 (swipe_failure_keeps_cursor Sample.swiping2 true
                  (failure (Some "boom") tt) eq_refl)).
Defined.

(** C4 (the claim fails): with an empty queue, N = 0, the flow is in the
    swiping step after the 0 commits there are, and a swipe does not move
    it to loading either. *)
Lemma empty_queue_never_loads :
  reachable Sample.stuck ∧
  songs Sample.stuck = [] ∧
  step Sample.stuck = swiping ∧
  step <$> (Sample.stuck :: (swipe_log [] Sample.stuck).*1) = [swiping] ∧
  run (handleSwipe true (success tt)) Sample.stuck = (Sample.stuck, []).
Proof.
  split; [|by vm_compute].
  eapply reaches_step; [eapply reaches_step; [apply reaches_refl|]|].
  - by apply (do_registration initial Sample.user (success (Some "sid"))).
  - by apply (do_start Sample.registered ["pop"] (success [])).
Qed.

(** C4 (amended): for a non-empty queue of N songs with track ids, taken
    from the cursor at 0 through N commits that the backend accepts, the
    step is swiping after each of the first N-1 commits and loading after
    the N-th, the cursor counts the commits, and one recommendation timer
    is armed in all, whatever the likes and dislikes. *)
Theorem loading_after_last_commit queue ds s :
  queue ≠ [] →
  length ds = length queue →
  Forall (λ song, truthy (track_id song) = true) queue →
  Forall (λ d, accepted d.2 = true) ds →
  step s = swiping → songs s = queue → currentSongIndex s = 0 →
  step <$> (s :: (swipe_log ds s).*1) = replicate (length queue) swiping ++ [loading] ∧
  currentSongIndex <$> (s :: (swipe_log ds s).*1) = seq 0 (S (length queue)) ∧
  timers (concat (swipe_log ds s).*2) = [1500].
Proof.
  intros Hne Hlen Hvalid Hok Hstep Hsongs Hidx.
  destruct (swipe_log_to_the_end ds s) as (Hsteps & Hidxs & Htimers).
  - intros ->. by destruct queue.
  - done.
  - by rewrite Hsongs.
  - done.
  - rewrite Hidx, Hsongs. done.
  - rewrite !fmap_cons, Hsteps, Hidxs, Htimers, Hstep, Hidx, Hlen.
    destruct queue as [|song queue]; [done|]. simpl.
    by rewrite Nat.sub_0_r.
Qed.

(** A like and a dislike on a queue of two. *)
Lemma loading_after_last_commit_witness :
  step <$> (Sample.swiping2 ::
            (swipe_log [(true, success tt); (false, success tt)] Sample.swiping2).*1)
  = [swiping; swiping; loading].
Proof.
  refine (proj1 (loading_after_last_commit [Sample.song0; Sample.song1]
                   [(true, success tt); (false, success tt)] Sample.swiping2
                   _ eq_refl _ _ eq_refl eq_refl eq_refl)).
  - discriminate.
  - repeat constructor.
  - repeat constructor.
Defined.

(** C5: in the loading step's recommendations request, a success reply
    whose list is empty or missing leaves the same state as a reply that
    failed in transport or by status: the genre step, with the queue and
    the recommendations empty. *)
Theorem empty_recommendations_as_failure s reply rows reply' :
  carries reply rows → rows = None ∨ rows = Some [] →
  failed reply' = true →
  (run (getRecommendations reply) s).1 = (run (getRecommendations reply') s).1 ∧
  step (run (getRecommendations reply) s).1 = genres ∧
  songs (run (getRecommendations reply) s).1 = [] ∧
  recs (run (getRecommendations reply) s).1 = [].
Proof.
  intros Hreply Hrows Hfail.
  rewrite (getRecommendations_no_rows s reply rows Hreply),
    (getRecommendations_failed s reply' Hfail); [done|].
  by destruct Hrows as [-> | ->].
Qed.

(** An empty list against a network failure. *)
Lemma empty_recommendations_as_failure_witness :
  (run (getRecommendations (success (Some []))) Sample.swiping2).1
  = (run (getRecommendations (Throw "Failed to fetch")) Sample.swiping2).1.
Proof.
  refine (proj1 (empty_recommendations_as_failure Sample.swiping2
                   (success (Some [])) (Some []) (Throw "Failed to fetch")
                   _ (or_intror eq_refl) eq_refl)).
  eexists _, _. repeat split; reflexivity.
Defined.

(** What the code relies on: the cursor starts at 0 and [handleRestart]
    puts it back, so in the sequential flow a genre submission that
    succeeds enters the swiping step with the returned queue in place of
    the previous one and the cursor at 0. *)
Theorem start_enters_at_zero s selectedGenres reply queue :
  reachable s → step s = genres → carries reply queue →
  step (run (handleStart selectedGenres reply) s).1 = swiping ∧
  songs (run (handleStart selectedGenres reply) s).1 = queue ∧
  currentSongIndex (run (handleStart selectedGenres reply) s).1 = 0.
Proof.
  intros Hreach Hstep Hreply.
  rewrite (handleStart_carries s selectedGenres reply queue Hreply). simpl.
  repeat split. apply cursor_at_start; auto.
Qed.

(** The first genre submission after registration. *)
Lemma start_enters_at_zero_witness :
  currentSongIndex
    (run (handleStart ["pop"; "rock"] (success [Sample.song0; Sample.song1]))
         Sample.registered).1 = 0.
Proof.
  refine (proj2 (proj2 (start_enters_at_zero Sample.registered ["pop"; "rock"]
                   (success [Sample.song0; Sample.song1])
                   [Sample.song0; Sample.song1] _ eq_refl _))).
  - eapply reaches_step; [apply reaches_refl|].
    apply (do_registration initial Sample.user (success (Some "sid"))).
    reflexivity.
  - eexists _, _. repeat split; reflexivity.
Defined.

(** C10: a call of the swipe handler with the cursor at or past the end
    of the queue (an empty queue included) returns at once: the trace is
    empty, so no request goes out, and the state is the one before. *)
Theorem swipe_past_end_is_noop s liked reply :
  length (songs s) ≤ currentSongIndex s →
  run (handleSwipe liked reply) s = (s, []).
Proof. apply handleSwipe_past_end. Qed.

(** A swipe on the empty queue. *)
Lemma swipe_past_end_is_noop_witness :
  run (handleSwipe true (success tt)) Sample.stuck = (Sample.stuck, []).
Proof.
  apply (swipe_past_end_is_noop Sample.stuck true (success tt)).
  vm_compute. lia.
Defined.

End FlowController.

(** ** The gesture recognizer ([SongCard.jsx]) *)

Module GestureRecognizer.
Import SongCard.
Local Open Scope Q_scope.

Lemma gt_true a b : b < a → gt a b = true.
Proof.
  intros Hlt. unfold gt. apply negb_true_iff, not_true_is_false.
  rewrite Qle_bool_iff. by apply Qlt_not_le.
Qed.

Lemma gt_false a b : a <= b → gt a b = false.
Proof.
  intros Hle. unfold gt. apply negb_false_iff. by apply Qle_bool_iff.
Qed.

Lemma run_app c es1 es2 :
  run c (es1 ++ es2) =
    let '(c1, out1) := run c es1 in
    let '(c2, out2) := run c1 es2 in
    (c2, out1 ++ out2).
Proof.
  revert c. induction es1 as [|e es1 IH]; intros c; simpl.
  - by destruct (run c es2).
  - destruct (step c e) as [c1 out1]. rewrite IH.
    destruct (run c1 es1) as [c2 out2], (run c2 es2) as [c3 out3].
    by rewrite app_assoc.
Qed.

(** While [isAnimating] holds, each of the three triggers returns at its
    guard. *)
Lemma trigger_ignored c e :
  isAnimating (view c) = true → is_trigger e = true → step c e = (c, []).
Proof.
  intros Hanim Htrig. destruct e; try done; simpl.
  - unfold onDragEnd. by rewrite Hanim.
  - unfold handleKeyDown. rewrite Hanim. by rewrite orb_true_r.
  - unfold onClick. by rewrite Hanim.
Qed.

Lemma triggers_ignored c ts :
  isAnimating (view c) = true → Forall (λ e, is_trigger e = true) ts →
  run c ts = (c, []).
Proof.
  intros Hanim Hts. induction Hts as [|e ts He _ IH]; [done|].
  simpl. rewrite (trigger_ignored c e Hanim He). by rewrite IH.
Qed.

Lemma decisions_resume d settled s :
  decisions (animateSwipe_resume d settled s).2 =
    match settled with Normal _ => [isLike d] | Throw _ => [] end.
Proof. by destruct settled. Qed.

(** [animateSwipe] passes its guard on a displayed card at rest. *)
Lemma animateSwipe_begin_starts d s :
  isAnimating s = false → is_Some (song s) →
  ∃ s' out, animateSwipe_begin d s = Some (s', out) ∧
            isAnimating s' = true ∧ decisions out = [].
Proof.
  intros Hanim Hsong. unfold animateSwipe_begin, cardRef, has_song.
  rewrite Hanim, bool_decide_eq_true_2 by done. simpl.
  eexists _, _. split; [reflexivity|]. split; [done|].
  by destruct (audioRef s).
Qed.

(** What [animateSwipe] starts is an animation. *)
Lemma animateSwipe_begin_animating d s s' out :
  animateSwipe_begin d s = Some (s', out) →
  isAnimating s = false ∧ isAnimating s' = true.
Proof.
  unfold animateSwipe_begin. destruct (isAnimating s); [done|].
  destruct (negb (cardRef s)); [done|]. by intros [= <- <-].
Qed.

Lemma release_starts c o d :
  isAnimating (view c) = false → is_Some (song (view c)) →
  100 < Qabs o → gt o 0 = isLike d →
  ∃ s out,
    step c (DragEnd o) = (mkCard s (animations c ++ [d]) (details c), out) ∧
    decisions out = [] ∧ isAnimating s = true.
Proof.
  intros Hanim Hsong Habs Hdir. simpl. unfold onDragEnd.
  rewrite Hanim, (gt_true _ _ Habs). unfold start.
  destruct (animateSwipe_begin_starts (if gt o 0 then like else dislike)
              (setIsDragging false (view c))) as (s & out & -> & Hs & Hout);
    [done..|].
  exists s, out. cbn [triggered]. repeat split; try done.
  by destruct d, (gt o 0).
Qed.

(** A trigger keeps the flag and the pending promise in step. *)
Lemma triggered_consistent c t :
  consistent c →
  match t with
  | Ignored => True
  | Settled s _ => isAnimating s = isAnimating (view c)
  | Started _ s _ => isAnimating (view c) = false ∧ isAnimating s = true
  end →
  consistent (triggered c t).1.
Proof.
  intros Hc Ht. destruct t as [|s out|d s out]; simpl; [done|..].
  - destruct Hc as [[Hrest Hnone]|(d & Hanim & Hone)]; [left|right; exists d];
      split; simpl; congruence.
  - destruct Ht as [Hrest Hs].
    destruct Hc as [[_ Hnone]|(d' & Hanim & _)]; [|congruence].
    right. exists d. split; simpl; [done|]. by rewrite Hnone.
Qed.

Lemma song_effects_isAnimating refetch s :
  isAnimating (song_effects refetch s).1 = isAnimating s.
Proof.
  unfold song_effects.
  destruct (song s ≫= track_id) as [t|]; [destruct (refetch && _)|];
    by destruct (has_song s).
Qed.

Lemma start_shape d s otherwise :
  (∃ s' out, start d s otherwise = Started d s' out ∧
             isAnimating s = false ∧ isAnimating s' = true)
  ∨ start d s otherwise = otherwise.
Proof.
  unfold start. destruct (animateSwipe_begin d s) as [[s' out]|] eqn:Hbegin.
  - left. exists s', out. split; [done|]. by eapply animateSwipe_begin_animating.
  - by right.
Qed.

(** Every event keeps [isAnimating] and the pending animation in step. *)
Lemma step_consistent c e : consistent c → consistent (step c e).1.
Proof.
  intros Hc. destruct e as [|o|o|k|d|settled|new|track reply]; cbn [step].
  - destruct (isAnimating (view c)) eqn:Hanim; [done|].
    destruct Hc as [[_ Hnone]|(d & ? & _)]; [|congruence]. by left.
  - unfold onDrag. destruct (negb (cardRef (view c)) || isAnimating (view c));
      [by destruct c|].
    destruct Hc as [[Hrest Hnone]|(d & Hanim & Hone)]; [left|right; exists d]; done.
  - apply triggered_consistent; [done|]. unfold onDragEnd.
    destruct (isAnimating (view c)) eqn:Hanim; [done|].
    destruct (gt (Qabs o) 100); [|done].
    destruct (start_shape (if gt o 0 then like else dislike)
                (setIsDragging false (view c))
                (Settled (setIsDragging false (view c)) []))
      as [(s' & out & -> & _ & Hs')| ->]; done.
  - apply triggered_consistent; [done|]. unfold handleKeyDown.
    destruct (isDragging (view c) || isAnimating (view c) || negb (has_song (view c)));
      [done|].
    destruct (String.eqb k "ArrowLeft").
    { by destruct (start_shape dislike (view c) Ignored)
        as [(s' & out & -> & ? & ?)| ->]. }
    destruct (String.eqb k "ArrowRight"); [|done].
    by destruct (start_shape like (view c) Ignored)
      as [(s' & out & -> & ? & ?)| ->].
  - apply triggered_consistent; [done|]. unfold onClick.
    destruct (negb (isAnimating (view c))); [|done].
    by destruct (start_shape d (view c) Ignored)
      as [(s' & out & -> & ? & ?)| ->].
  - destruct (animations c) as [|d rest] eqn:Hpending; [done|].
    destruct Hc as [[_ Hnone]|(d' & _ & Hone)]; [congruence|].
    assert (rest = []) as -> by congruence.
    left. by destruct settled.
  - pose proof (song_effects_isAnimating
                  (negb (bool_decide (track_id new = song (view c) ≫= track_id)))
                  (with_song (Some new) (view c))) as Hsame.
    destruct (song_effects _ _) as [s out]. simpl in *.
    destruct Hc as [[Hrest Hnone]|(d & Hanim & Hone)]; [left|right; exists d];
      split; simpl; congruence.
  - case_bool_decide; [|done].
    assert (Hsame : isAnimating (fetchSongDetails_resume reply (view c))
                    = isAnimating (view c)).
    { unfold fetchSongDetails_resume.
      destruct reply as [[[] [body|m]]|m]; done. }
    destruct Hc as [[Hrest Hnone]|(d & Hanim & Hone)]; [left|right; exists d];
      split; simpl; congruence.
Qed.

(** Every card the component can be in is consistent. *)
Lemma run_consistent s es : consistent (run (mount s).1 es).1.
Proof.
  assert (Hgen : ∀ c, consistent c → consistent (run c es).1).
  { induction es as [|e es IH]; intros c Hc; [done|]. simpl.
    pose proof (step_consistent c e Hc) as Hstep.
    destruct (step c e) as [c1 out1]. specialize (IH c1 Hstep).
    by destruct (run c1 es). }
  apply Hgen. left. unfold mount.
  pose proof (song_effects_isAnimating true
                (mkState (Some s) false false None false None false neutral))
    as Hsame.
  by destruct (song_effects _ _).
Qed.

(** A release that arrives while a commit animation runs is not looked
    at, like every trigger then: the card was pressed "like" during the
    drag; the release 150 to the left commits no dislike, and a release 50
    to the right leaves the pose where the animation put it. *)
Lemma release_during_animation_ignored :
  isAnimating (view Sample.pressed) = true ∧
  gt (Qabs (-150)) 100 = true ∧
  step Sample.pressed (DragEnd (-150)) = (Sample.pressed, []) ∧
  decisions (run Sample.pressed
               [DragEnd (-150); AnimationSettled (Normal tt)]).2 = [true] ∧
  gt (Qabs 50) 100 = false ∧
  x (pose (view (step Sample.pressed (DragEnd 50)).1)) = 1000 ∧
  rotate (pose (view (step Sample.pressed (DragEnd 50)).1)) = 45.
Proof. vm_compute. repeat split. Qed.

(** C6: for a release on a displayed card (a release during a commit
    animation is a trigger that is ignored): past the threshold of 100
    the commit animation starts, and when it completes the decision
    handed to [onSwipe] is a like for a positive offset and a dislike for
    a negative one; at or below the threshold no animation starts, no
    decision is made, and the controls are sent to offset 0 and rotation
    0. *)
Theorem release_commits_past_threshold c o :
  at_rest c → is_Some (song (view c)) →
  (100 < Qabs o → 0 < o →
     decisions (run c [DragEnd o; AnimationSettled (Normal tt)]).2 = [true]) ∧
  (100 < Qabs o → o < 0 →
     decisions (run c [DragEnd o; AnimationSettled (Normal tt)]).2 = [false]) ∧
  (Qabs o <= 100 →
     ∃ c', step c (DragEnd o) = (c', [SpringBack]) ∧ at_rest c' ∧
           x (pose (view c')) = 0 ∧ rotate (pose (view c')) = 0).
Proof.
  intros [Hanim Hnone] Hsong.
  assert (Hcommit : ∀ d, 100 < Qabs o → gt o 0 = isLike d →
            decisions (run c [DragEnd o; AnimationSettled (Normal tt)]).2 = [isLike d]).
  { intros d Habs Hdir.
    destruct (release_starts c o d Hanim Hsong Habs Hdir) as (s & out & Hstep & Hout & _).
    cbn [run]. rewrite Hstep, Hnone. simpl.
    unfold decisions in *. rewrite omap_app, Hout. done. }
  split; [|split].
  - intros Habs Hpos. apply (Hcommit like Habs). by apply gt_true.
  - intros Habs Hneg. apply (Hcommit dislike Habs). by apply gt_false, Qlt_le_weak.
  - intros Habs. simpl. unfold onDragEnd. rewrite Hanim, (gt_false _ _ Habs).
    eexists. split; [reflexivity|]. by repeat split.
Qed.

(** A release 150 to the right on a fresh card. *)
Lemma release_commits_past_threshold_witness :
  decisions (run Sample.card0 [DragEnd 150; AnimationSettled (Normal tt)]).2 = [true].
Proof.
  refine (proj1 (release_commits_past_threshold Sample.card0 150
                   (conj eq_refl eq_refl) _) _ _).
  - eexists; reflexivity.
  - reflexivity.
  - reflexivity.
Defined.

(** The guard of the card: while a commit animation is in progress, any
    series of drag releases, button presses and key presses leaves the
    card as it is, pending animation included, and produces no output;
    the animation hands one decision to [onSwipe] when it completes, none
    when it fails. *)
Theorem one_decision_per_animation c d ts settled :
  animating c d →
  Forall (λ e, is_trigger e = true) ts →
  run c ts = (c, []) ∧
  decisions (run c (ts ++ [AnimationSettled settled])).2 =
    match settled with Normal _ => [isLike d] | Throw _ => [] end.
Proof.
  intros [Hanim Hpending] Hts.
  pose proof (triggers_ignored c ts Hanim Hts) as Hrun. split; [done|].
  rewrite run_app, Hrun. cbn [run step]. rewrite Hpending.
  pose proof (decisions_resume d settled (view c)) as Hres.
  destruct (animateSwipe_resume d settled (view c)) as [s out]. simpl in *.
  by rewrite app_nil_r.
Qed.

(** A release, a key and a button during the animation of a like. *)
Lemma one_decision_per_animation_witness :
  decisions (run Sample.pressed
               ([DragEnd (-150); KeyDown "ArrowLeft"; Click dislike]
                  ++ [AnimationSettled (Normal tt)])).2 = [true].
Proof.
  refine (proj2 (one_decision_per_animation Sample.pressed like
                   [DragEnd (-150); KeyDown "ArrowLeft"; Click dislike]
                   (Normal tt) (conj eq_refl eq_refl) _)).
  repeat constructor.
Defined.

End GestureRecognizer.

(** ** The per-card session ([SongCard.jsx] inside [App.jsx]) *)

Module SwipeSession.
Import SongCard Session GestureRecognizer FlowController.
Import Swiping (Card, Flow).
Import Overlaps.

Lemma swipes_app t1 t2 : swipes (t1 ++ t2) = swipes t1 ++ swipes t2.
Proof. apply omap_app. Qed.

Lemma swipes_requests out : swipes (Swiping.requests out) = [].
Proof.
  unfold Swiping.requests. by induction (SongCard.posted out).
Qed.

Lemma system_run_app sys es1 es2 :
  Swiping.run sys (es1 ++ es2) =
    let '(sys1, t1) := Swiping.run sys es1 in
    let '(sys2, t2) := Swiping.run sys1 es2 in
    (sys2, t1 ++ t2).
Proof.
  revert sys. induction es1 as [|e es1 IH]; intros sys; simpl.
  - by destruct (Swiping.run sys es2).
  - destruct (Swiping.step sys e) as [sys1 t1]. rewrite IH.
    destruct (Swiping.run sys1 es1) as [sys2 t2].
    destruct (Swiping.run sys2 es2) as [sys3 t3]. by rewrite app_assoc.
Qed.

(** What [animateSwipe] puts out when it starts. *)
Lemma animateSwipe_begin_begun d s s' out :
  animateSwipe_begin d s = Some (s', out) →
  Swiping.begun out = [d] ∧ SongCard.posted out = [] ∧ decisions out = [] ∧
  song s' = song s.
Proof.
  unfold animateSwipe_begin. destruct (isAnimating s || negb (cardRef s)); [done|].
  intros [= <- <-]. by destruct (audioRef s).
Qed.

(** A press on a card at rest starts the animation and notes the render
    whose [handleSwipe] it will call. *)
Lemma press sys c d :
  Swiping.card sys = Some c → at_rest c → is_Some (song (view c)) →
  Swiping.handlers sys = [] →
  ∃ s1,
    Swiping.step sys (Card (Click d)) =
      (Swiping.mkSystem (Swiping.flow sys) (Some (mkCard s1 [d] (details c)))
                        [Swiping.app sys], []) ∧
    song s1 = song (view c).
Proof.
  intros Hcard [Hrest Hnone] Hsong Hhs.
  destruct (animateSwipe_begin_starts d (view c) Hrest Hsong)
    as (s1 & out1 & Hbegin & Hanim1 & Hout1).
  destruct (animateSwipe_begin_begun _ _ _ _ Hbegin) as (Hbegun & Hposted & _ & Hsong1).
  exists s1. split; [|done].
  unfold Swiping.step. rewrite Hcard. cbn [SongCard.step].
  unfold onClick, start. rewrite Hrest, Hbegin. cbn [negb triggered].
  rewrite Hout1, Hnone, Hhs, Hbegun. cbn [Swiping.deliver Swiping.settles app fmap list_fmap].
  unfold Swiping.requests. rewrite Hposted. reflexivity.
Qed.

(** The animation over, the decision goes to the [handleSwipe] noted. *)
Lemma settle sys c d h :
  Swiping.card sys = Some c → animations c = [d] → Swiping.handlers sys = [h] →
  Swiping.step sys (Card (AnimationSettled (Normal tt))) =
    (Swiping.mkSystem (Async.onSwipe h (isLike d) (Swiping.flow sys)).1
       (Some (mkCard (setIsAnimating false (with_pose neutral (view c))) []
                     (details c))) [],
     (Async.onSwipe h (isLike d) (Swiping.flow sys)).2).
Proof.
  intros Hcard Hpending Hhs. unfold Swiping.step. rewrite Hcard. cbn [SongCard.step].
  rewrite Hpending, Hhs. cbn [animateSwipe_resume].
  change (decisions [OnSwipe (isLike d); HideOverlay d]) with [isLike d].
  unfold Swiping.settles. rewrite Hpending.
  cbn [Swiping.deliver head default tail]. simpl.
  destruct (Async.onSwipe h (isLike d) (Swiping.flow sys)) as [f1 t1].
  simpl. by rewrite ?app_nil_r.
Qed.

(** C3 (the claim fails): the first card is committed and the app moves
    the cursor, so the card shows the second song with its media reset and
    both detail requests pending; then the detail of the first song
    arrives, and the album image and preview URL of the card become those
    of the first song. *)
Lemma stale_detail_is_applied :
  Swiping.card
    (Swiping.run Sample.mounted
       [Card (KeyDown "ArrowRight");
        Card (AnimationSettled (Normal tt));
        Flow (Async.SwipeSettled 0 (success tt))]).1 = Some Sample.advanced ∧
  song (view Sample.advanced) = Some Sample.song1 ∧
  albumImage (view Sample.advanced) = None ∧
  previewUrl (view Sample.advanced) = None ∧
  details Sample.advanced = ["t0"; "t1"] ∧
  view (step Sample.advanced (DetailSettled "t0" (success Sample.detail0))).1
  = mkState (Some Sample.song1) false true (Some "k.jpg") false (Some "k.mp3")
            false neutral.
Proof. vm_compute. repeat split. Qed.

(** C3 (amended): a detail reply that arrives for a request still
    pending is applied to the card whichever song the request was for and
    whichever song is active: the album image and the preview URL become
    those of the reply and the image counts as loaded.  So the reply for
    K that arrives after the advance to K+1 sets the media shown for K+1,
    until the reply for K+1 arrives and sets them in its turn. *)
Theorem detail_reply_applies_to_active_card c track reply detail :
  track ∈ details c → carries reply detail →
  song (view (step c (DetailSettled track reply)).1) = song (view c) ∧
  albumImage (view (step c (DetailSettled track reply)).1) = image detail ∧
  previewUrl (view (step c (DetailSettled track reply)).1) = preview_url detail ∧
  imageLoaded (view (step c (DetailSettled track reply)).1) = true.
Proof.
  intros Hpending (response & body & -> & Hok & Hjson & <-).
  simpl. rewrite bool_decide_eq_true_2 by done. simpl.
  by rewrite Hok, Hjson.
Qed.

(** The detail of the first song on the card of the second. *)
Lemma detail_reply_applies_to_active_card_witness :
  song (view (step Sample.advanced
                (DetailSettled "t0" (success Sample.detail0))).1)
    = Some Sample.song1 ∧
  albumImage (view (step Sample.advanced
                      (DetailSettled "t0" (success Sample.detail0))).1)
    = Some "k.jpg".
Proof.
  refine (let H := detail_reply_applies_to_active_card Sample.advanced "t0"
                     (success Sample.detail0) Sample.detail0 _ _ in
          conj (proj1 H) (proj1 (proj2 H))).
  - vm_compute. apply list_elem_of_here.
  - eexists _, _. repeat split; reflexivity.
Defined.

(** C7 (what the code does): [animateSwipe] does not await [onSwipe]
    and clears [isAnimating] as soon as the animation is over, while the
    swipe request it started has not been answered and the card still
    shows the same song.  So the card can be committed again: after the
    first press and its animation the app has not moved, the swipe is
    pending and the card is at rest on the song it showed; a second press
    and its animation post a second decision for the same track. *)
Theorem same_card_committed_twice sys s d1 d2 :
  ready sys →
  App.songs (Swiping.app sys) !! App.currentSongIndex (Swiping.app sys) = Some s →
  truthy (track_id s) = true →
  Swiping.app (Swiping.run sys (take 2 (double_commit d1 d2))).1 = Swiping.app sys ∧
  Async.swipes (Swiping.flow (Swiping.run sys (take 2 (double_commit d1 d2))).1)
    = [(Swiping.app sys, isLike d1)] ∧
  (∃ c0 c, Swiping.card sys = Some c0 ∧
           Swiping.card (Swiping.run sys (take 2 (double_commit d1 d2))).1 = Some c ∧
           at_rest c ∧ song (view c) = song (view c0)) ∧
  swipes (Swiping.run sys (double_commit d1 d2)).2
    = [(default "" (track_id s), isLike d1); (default "" (track_id s), isLike d2)].
Proof.
  intros (Hquiet & Hhs & Hstep & Hsome & c & Hcard & Hrest & Hsong) Hactive Htruthy.
  destruct sys as [[a rg st sw tm lk] oc hs]. unfold Swiping.app, Async.quiet in *.
  cbn [Swiping.flow Swiping.card Swiping.handlers Async.live] in *.
  injection Hquiet as -> -> -> -> ->. subst hs oc.
  fold (Async.quiet a) in *.
  assert (Hawaits : Async.handleSwipe_awaits a = true).
  { unfold Async.handleSwipe_awaits. rewrite Hactive. simpl. rewrite Htruthy.
    apply lookup_lt_Some in Hactive. rewrite bool_decide_eq_false_2 by lia. done. }
  assert (Hbegin : ∀ liked, App.run (Async.handleSwipe_begin a liked) a =
            (a, [GAEvent "User Interaction" "Song Swipe"
                   (Some (if liked then "Like" else "Dislike"));
                 Post (Swipe (App.sessionId a) (default "" (track_id s)) liked)])).
  { intros liked. unfold Async.handleSwipe_begin. handler; simpl.
    apply lookup_lt_Some in Hactive as Hlt. rewrite bool_decide_eq_false_2 by lia.
    rewrite Hactive. simpl. by rewrite Htruthy. }
  destruct (press (Swiping.mkSystem (Async.quiet a) (Some c) []) c d1 eq_refl Hrest Hsong eq_refl)
    as (s1 & Hpress & Hsong1).
  pose proof (settle (Swiping.mkSystem (Async.quiet a) (Some (mkCard s1 [d1] (details c))) [a])
                _ d1 a eq_refl eq_refl eq_refl) as Hsettle.
  unfold Swiping.app in Hpress.
  cbn [Swiping.flow view details Async.live Async.quiet] in Hpress, Hsettle.
  unfold Async.onSwipe in Hsettle.
  cbn [Async.live Async.quiet Async.registrations Async.starts Async.swipes
       Async.timers Async.lookups] in Hsettle.
  rewrite Hbegin, Hawaits in Hsettle. cbn [fst snd app] in Hsettle.
  set (c1 := mkCard (setIsAnimating false (with_pose neutral s1)) [] (details c)) in *.
  set (f1 := Async.mkFlow a [] [] [(a, isLike d1)] [] []) in *.
  assert (Hfirst : Swiping.run (Swiping.mkSystem (Async.quiet a) (Some c) [])
                     [Card (Click d1); Card (AnimationSettled (Normal tt))]
                   = (Swiping.mkSystem f1 (Some c1) [],
                      [GAEvent "User Interaction" "Song Swipe"
                         (Some (if isLike d1 then "Like" else "Dislike"));
                       Post (Swipe (App.sessionId a) (default "" (track_id s))
                               (isLike d1))])).
  { cbn [Swiping.run]. rewrite Hpress, Hsettle. reflexivity. }
  assert (Hsong_c1 : song (view c1) = song (view c)) by done.
  unfold double_commit. cbn [take].
  split; [by rewrite Hfirst|]. split; [by rewrite Hfirst|].
  split; [exists c, c1; by rewrite Hfirst|].
  destruct (press (Swiping.mkSystem f1 (Some c1) []) c1 d2 eq_refl) as (s2 & Hpress2 & _);
    [done|by rewrite Hsong_c1|done|].
  pose proof (settle (Swiping.mkSystem f1 (Some (mkCard s2 [d2] (details c1))) [a])
                _ d2 a eq_refl eq_refl eq_refl) as Hsettle2.
  unfold Swiping.app in Hpress2.
  cbn [Swiping.flow view details Async.live] in Hpress2, Hsettle2.
  unfold Async.onSwipe in Hsettle2. subst f1.
  cbn [Async.live Async.registrations Async.starts Async.swipes
       Async.timers Async.lookups] in Hsettle2, Hpress2.
  rewrite Hbegin, Hawaits in Hsettle2. cbn [fst snd] in Hsettle2.
  change [Card (Click d1); Card (AnimationSettled (Normal tt));
          Card (Click d2); Card (AnimationSettled (Normal tt))]
    with ([Card (Click d1); Card (AnimationSettled (Normal tt))]
            ++ [Card (Click d2); Card (AnimationSettled (Normal tt))]).
  rewrite system_run_app, Hfirst. cbn [Swiping.run]. rewrite Hpress2, Hsettle2.
  reflexivity.
Qed.

(** The first card of the sample queue, liked and then disliked. *)
Lemma same_card_committed_twice_witness :
  swipes (Swiping.run Sample.mounted (double_commit like dislike)).2
    = [("t0", true); ("t0", false)].
Proof.
  refine (proj2 (proj2 (proj2 (same_card_committed_twice Sample.mounted Sample.song0
                                 like dislike _ eq_refl eq_refl)))).
  split; [reflexivity|]. split; [reflexivity|]. split; [reflexivity|].
  split; [by eexists|].
  exists Sample.card0. split; [reflexivity|]. split; [|by eexists].
  vm_compute. auto.
Defined.

(** Both swipes accepted: the cursor has moved by one; on the last card
    of a queue each reply arms a timer of its own. *)
Lemma double_commit_replies :
  App.currentSongIndex
    (Swiping.app
       (Swiping.run Sample.mounted
          (double_commit like like
             ++ [Flow (Async.SwipeSettled 0 (success tt));
                 Flow (Async.SwipeSettled 0 (success tt))])).1) = 1 ∧
  App.timers
    (Swiping.run last_card
       (double_commit like like
          ++ [Flow (Async.SwipeSettled 0 (success tt));
              Flow (Async.SwipeSettled 0 (success tt))])).2 = [1500; 1500].
Proof. vm_compute. done. Qed.

End SwipeSession.

(** ** Playback on the results page ([Recommendations.jsx]) *)

Module PlaybackController.
Import Recommendations.

Lemma stopCurrentAudio_silent st r it :
  items (stopCurrentAudio st) !! r = Some it → playing it = false.
Proof.
  unfold stopCurrentAudio, setCurrentlyPlaying; simpl.
  assert (Hpaused : ∀ it', (pause <$> items st) !! r = Some it' → playing it' = false).
  { intros it'. rewrite lookup_fmap.
    destruct (items st !! r); simpl; intros [= <-]; done. }
  destruct (currentlyPlaying st) as [a|]; simpl; [|apply Hpaused].
  destruct (decide (a = r)) as [->|Hne].
  - rewrite lookup_alter_eq.
    destruct ((pause <$> items st) !! r); simpl; intros [= <-]; done.
  - rewrite lookup_alter_ne by done. apply Hpaused.
Qed.

(** Pressing a row that is not the playing one pauses every other row
    before anything is awaited. *)
Lemma click_silences_others p r r' :
  is_Some (items (ui p) !! r) → isPlaying (ui p) r = false → r' ≠ r →
  sounding (step p (Click r)) r' = false.
Proof.
  intros [it Hit] Hr Hne. unfold sounding. cbn [step]. unfold togglePlay_begin.
  rewrite Hit, Hr.
  destruct (negb (truthy (previewUrl it))); cbn [waiting ui].
  - destruct (items (stopCurrentAudio (ui p)) !! r') as [it'|] eqn:Hit'; [|done].
    by eapply stopCurrentAudio_silent.
  - unfold at_row; cbn [items]. rewrite lookup_alter_ne by done.
    destruct (items (stopCurrentAudio (ui p)) !! r') as [it'|] eqn:Hit'; [|done].
    by eapply stopCurrentAudio_silent.
Qed.

(** C9 (what the code does): two rows are pressed before either preview
    request is answered.  The first row starts playing when its reply
    arrives; when the reply of the second arrives its [play()] is called
    with the first still playing.  The first is paused only by the
    render that follows the second [play()] promise. *)
Theorem two_rows_playing :
  let p := run Sample.results
             [Click "a"; Click "b";
              DetailSettled "a" (Sample.preview "a.mp3");
              PlaySettled "a" fetched (Normal tt);
              DetailSettled "b" (Sample.preview "b.mp3")] in
  sounding p "a" = true ∧ sounding p "b" = true ∧
  currentlyPlaying (ui p) = Some "a" ∧
  sounding (step p (PlaySettled "b" fetched (Normal tt))) "a" = false ∧
  sounding (step p (PlaySettled "b" fetched (Normal tt))) "b" = true.
Proof. vm_compute. done. Qed.

End PlaybackController.

(** ** Calls in flight ([App.jsx]) *)

Module Overlap.
Import App Async Overlaps FlowController.

Ltac timer_cases :=
  destruct (decide (App.step _ = loading)) as [?Hl|?Hl].

Ltac parts :=
  unfold handleRegistration_begin, handleRegistration_resume,
    handleStart_begin, handleStart_resume, handleSwipe_begin, handleSwipe_resume,
    handleSwipe_awaits, getRecommendations_begin, getRecommendations_resume,
    getRecommendations_awaits.

(** Called and answered with nothing in between, the two parts of a
    handler are the handler. *)
Lemma handleRegistration_split user reply s :
  run (handleRegistration user reply) s =
    (let '(s1, t1) := run (handleRegistration_begin user) s in
     let '(s2, t2) := run (handleRegistration_resume user reply) s1 in
     (s2, t1 ++ t2)).
Proof.
  parts. handler; simpl. destruct reply as [[[] [body|m]]|m]; reflexivity.
Qed.

Lemma handleStart_split gs reply s :
  run (handleStart gs reply) s =
    (let '(s1, t1) := run (handleStart_begin s gs) s in
     let '(s2, t2) := run (handleStart_resume reply) s1 in
     (s2, t1 ++ t2)).
Proof.
  parts. handler; simpl. destruct reply as [[[] [body|m]]|m]; reflexivity.
Qed.

Lemma handleSwipe_split liked reply s :
  run (handleSwipe liked reply) s =
    (let '(s1, t1) := run (handleSwipe_begin s liked) s in
     if handleSwipe_awaits s
     then let '(s2, t2) := run (handleSwipe_resume s reply) s1 in (s2, t1 ++ t2)
     else (s1, t1)).
Proof.
  parts. handler; simpl. case_bool_decide; simpl; [done|].
  destruct (truthy _); simpl; [|done].
  destruct reply as [[[] [body|m]]|m]; simpl; try reflexivity;
    case_bool_decide; reflexivity.
Qed.

Lemma getRecommendations_split reply s :
  run (getRecommendations reply) s =
    (let '(s1, t1) := run (getRecommendations_begin s) s in
     if getRecommendations_awaits s
     then let '(s2, t2) := run (getRecommendations_resume reply) s1 in (s2, t1 ++ t2)
     else (s1, t1)).
Proof.
  parts. handler; simpl. destruct (truthy _); simpl; [|done].
  destruct reply as [[[] [body|m]]|m]; simpl; try reflexivity.
  destruct (no_length _); reflexivity.
Qed.

Lemma run_events_app f es1 es2 :
  run_events f (es1 ++ es2) =
    (let '(f1, t1) := run_events f es1 in
     let '(f2, t2) := run_events f1 es2 in
     (f2, t1 ++ t2)).
Proof.
  revert f. induction es1 as [|e es1 IH]; intros f; simpl.
  - by destruct (run_events f es2).
  - destruct (step f e) as [f1 t1]. rewrite IH.
    destruct (run_events f1 es1) as [f2 t2].
    destruct (run_events f2 es2) as [f3 t3]. by rewrite app_assoc.
Qed.

(** A round from a settled state is one transition of the sequential
    flow, or nothing, and leaves a settled state. *)
Lemma round_settled f r :
  settled f →
  settled (run_events f (events r)).1 ∧
  (live (run_events f (events r)).1 = live f
   ∨ transition (live f) (live (run_events f (events r)).1)).
Proof.
  destruct f as [a rg st sw tm lk]. unfold settled. cbn [live registrations starts swipes timers lookups].
  intros (-> & -> & -> & -> & Htimers).
  destruct r as [user reply|gs reply|liked reply|reply|]; cbn [events run_events step live registrations starts swipes timers lookups].
  - destruct (decide (App.step a = registration ∧ [] = [])) as [[Hstep _]|Hno].
    + rewrite decide_False in Htimers by congruence. subst tm.
      pose proof (handleRegistration_split user reply a) as Hsplit.
      pose proof (handleRegistration_cases a user reply) as Hcases.
      destruct (run (handleRegistration_begin user) a) as [s1 t1] eqn:Hbegin.
      assert (s1 = a) as -> by (revert Hbegin; parts; handler; simpl; congruence).
      cbn [live registrations starts swipes timers lookups app lookup list_lookup].
      destruct (run (handleRegistration_resume user reply) a) as [s2 t2].
      cbn [fst snd live registrations starts swipes timers lookups].
      assert (Hs2 : s2 = (run (handleRegistration user reply) a).1) by (by rewrite Hsplit).
      split.
      * repeat split. timer_cases; [exfalso|done]. revert Hl.
        rewrite Hs2. destruct Hcases as [[sid ->]| ->]; simpl; congruence.
      * right. rewrite Hs2. by constructor.
    + simpl. split; [|by left]. by repeat split.
  - destruct (decide (App.step a = genres)) as [Hstep|Hno].
    + rewrite decide_False in Htimers by congruence. subst tm.
      pose proof (handleStart_split gs reply a) as Hsplit.
      pose proof (handleStart_cases a gs reply) as Hcases.
      destruct (run (handleStart_begin a gs) a) as [s1 t1] eqn:Hbegin.
      assert (s1 = a) as -> by (revert Hbegin; parts; handler; simpl; congruence).
      cbn [live registrations starts swipes timers lookups app lookup list_lookup].
      destruct (run (handleStart_resume reply) a) as [s2 t2].
      cbn [fst snd live registrations starts swipes timers lookups].
      assert (Hs2 : s2 = (run (handleStart gs reply) a).1) by (by rewrite Hsplit).
      split.
      * repeat split. timer_cases; [exfalso|done]. revert Hl.
        rewrite Hs2. destruct Hcases as [(q & _ & ->)| ->]; simpl; congruence.
      * right. rewrite Hs2. by constructor.
    + simpl. split; [|by left]. by repeat split.
  - destruct (decide (App.step a = swiping ∧ is_Some (songs a !! currentSongIndex a)))
      as [[Hstep Hsong]|Hno].
    + rewrite decide_False in Htimers by congruence. subst tm.
      pose proof (handleSwipe_split liked reply a) as Hsplit.
      unfold onSwipe. cbn [live registrations starts swipes timers lookups].
      destruct (run (handleSwipe_begin a liked) a) as [s1 t1] eqn:Hbegin.
      assert (s1 = a) as ->.
      { revert Hbegin. parts; handler; simpl. case_bool_decide; simpl; [congruence|].
        destruct (truthy _); simpl; congruence. }
      destruct (handleSwipe_awaits a) eqn:Hawaits.
      * cbn [app lookup list_lookup live registrations starts swipes timers lookups].
        destruct (run (handleSwipe_resume a reply) a) as [s2 t2] eqn:Hresume.
        cbn [fst snd live registrations starts swipes timers lookups].
        assert (Hs2 : s2 = (run (handleSwipe liked reply) a).1) by (by rewrite Hsplit).
        split; [|right; rewrite Hs2; by constructor].
        repeat split.
        revert Hresume. parts; handler; simpl.
        destruct reply as [[[] [body|m]]|m]; simpl;
          try (intros [= <- <-]; simpl; try timer_cases;
               first [done|congruence]).
        all: case_bool_decide; simpl; intros [= <- <-]; simpl;
          try timer_cases; simpl in *; first [done|congruence|by eexists].
      * simpl. split; [|by left]. repeat split. timer_cases; [congruence|done].
    + simpl. split; [|by left]. by repeat split.
  - destruct (decide (App.step a = loading)) as [Hstep|Hno].
    + destruct Htimers as (render & -> & Hsid).
      cbn [lookup list_lookup].
      pose proof (getRecommendations_split reply a) as Hsplit.
      pose proof (getRecommendations_cases a reply) as Hcases.
      assert (Hbegin : getRecommendations_begin render = getRecommendations_begin a)
        by (parts; by rewrite Hsid).
      assert (Hawaits : getRecommendations_awaits render = getRecommendations_awaits a)
        by (parts; by rewrite Hsid).
      rewrite Hbegin, Hawaits.
      destruct (run (getRecommendations_begin a) a) as [s1 t1] eqn:Hrun1.
      destruct (getRecommendations_awaits a) eqn:Ha.
      * assert (s1 = a) as ->.
        { revert Hrun1 Ha. parts; handler; simpl. intros H1 H2. rewrite H2 in H1.
          simpl in H1. congruence. }
        cbn [app lookup list_lookup live registrations starts swipes timers lookups delete list_delete].
        destruct (run (getRecommendations_resume reply) a) as [s2 t2].
        cbn [fst snd live registrations starts swipes timers lookups].
        assert (Hs2 : s2 = (run (getRecommendations reply) a).1) by (by rewrite Hsplit).
        split; [|right; rewrite Hs2; by constructor].
        repeat split. timer_cases; [exfalso|done]. revert Hl.
        rewrite Hs2. destruct Hcases as [(rows & -> & _)| ->]; simpl; congruence.
      * cbn [app lookup list_lookup live registrations starts swipes timers lookups delete list_delete fst snd].
        assert (Hs1 : s1 = (run (getRecommendations reply) a).1) by (by rewrite Hsplit).
        split; [|right; rewrite Hs1; by constructor].
        repeat split. timer_cases; [exfalso|done]. revert Hl.
        rewrite Hs1. destruct Hcases as [(rows & -> & _)| ->]; simpl; congruence.
    + subst tm. simpl. split; [|by left]. repeat split. timer_cases; done.
  - destruct (decide (App.step a = recommendations)) as [Hstep|Hno].
    + rewrite decide_False in Htimers by congruence. subst tm.
      rewrite run_handleRestart. simpl. split; [by repeat split|].
      right. pose proof (do_restart a Hstep) as Ht. by rewrite run_handleRestart in Ht.
    + simpl. split; [|by left]. by repeat split.
Qed.

(** A run of rounds from a settled state is a run of the sequential
    flow. *)
Lemma sequential_reaches rs : ∀ f,
  settled f →
  reaches (live f) (live (run_events f (sequential rs)).1) ∧
  settled (run_events f (sequential rs)).1.
Proof.
  induction rs as [|r rs IH]; intros f Hf; [split; [constructor|done]|].
  unfold sequential. cbn [fmap list_fmap concat]. fold (sequential rs).
  rewrite run_events_app.
  destruct (round_settled f r Hf) as [Hf1 Hlive].
  destruct (run_events f (events r)) as [f1 t1]. cbn [fst] in *.
  destruct (IH f1 Hf1) as [Hreach Hf2].
  destruct (run_events f1 (sequential rs)) as [f2 t2]. cbn [fst] in *.
  split; [|done].
  assert (Hfirst : reaches (live f) (live f1)).
  { destruct Hlive as [->|Hstep]; [constructor|].
    eapply reaches_step; [constructor|done]. }
  clear -Hfirst Hreach. induction Hreach; [done|].
  eapply reaches_step; eauto.
Qed.

Lemma sequential_reachable rs :
  reachable (live (run_events mount (sequential rs)).1).
Proof.
  apply (sequential_reaches rs mount). by repeat split.
Qed.

(** The continuation of [handleStart] installs the queue of a success
    reply and shows the swiping step; the cursor stays what it is. *)
Lemma start_reply_keeps_cursor f k gs reply queue :
  starts f !! k = Some gs → carries reply queue →
  live (step f (StartSettled k reply)).1 =
    mkState swiping (userData (live f)) (sessionId (live f)) queue
            (currentSongIndex (live f)) (recs (live f)).
Proof.
  intros Hk (response & body & -> & Hok & Hjson & <-).
  cbn [step]. rewrite Hk. parts; handler; simpl. by rewrite Hjson, Hok.
Qed.

(** C8 (what the code does): the start button is pressed twice before
    the first reply.  The first reply shows the swiping step on its queue
    at position 0 and the first song is liked, which moves the cursor to
    1; then the reply to the second press arrives: its queue replaces the
    first one and the swiping step goes on at position 1, on the second
    song of a queue whose first song was never shown. *)
Theorem late_start_reply_keeps_cursor :
  live (run_events mount (take 5 double_start)).1
    = mkState swiping (Some Sample.user) (Some "sid")
              [Sample.song0; Sample.song1] 0 [] ∧
  starts (run_events mount (take 7 double_start)).1 = [["pop"]] ∧
  currentSongIndex (live (run_events mount (take 7 double_start)).1) = 1 ∧
  live (run_events mount double_start).1
    = mkState swiping (Some Sample.user) (Some "sid")
              [Sample.song1; Sample.song0] 1 [].
Proof. vm_compute. done. Qed.

(** A swipe answered late moves the cursor while the genre picker is
    shown, and the next queue is entered from there at position 1. *)
Lemma late_swipe_reply_moves_cursor :
  live (run_events mount (take 11 late_swipe)).1
    = mkState genres (Some Sample.user) None [] 0 [] ∧
  live (run_events mount (take 12 late_swipe)).1
    = mkState genres (Some Sample.user) None [] 1 [] ∧
  live (run_events mount late_swipe).1
    = mkState swiping (Some Sample.user) None [Sample.song0; Sample.song1] 1 [].
Proof. vm_compute. done. Qed.

End Overlap.

(** ** Invariants and failure paths of the flow ([App.jsx]) *)

Module FlowInvariants.
Import App Trace Flow FlowController.

Lemma getRecommendations_outcomes s reply :
  (∃ row rows,
     (run (getRecommendations reply) s).1 =
       mkState recommendations (userData s) (sessionId s) (songs s)
               (currentSongIndex s) (row :: rows) ∧
     truthy (sessionId s) = true)
  ∨ (run (getRecommendations reply) s).1 = mkState genres (userData s) None [] 0 [].
Proof.
  destruct s as [stp ud sid q i rc]. handler; simpl.
  destruct (truthy sid) eqn:Hsid; simpl; [|by right].
  destruct reply as [[[] [body|m]]|m]; simpl; eauto.
  destruct (data body) as [[|row rows]|]; simpl; eauto.
Qed.

Lemma transition_well_formed s s' :
  well_formed s → transition s s' → well_formed s'.
Proof.
  unfold well_formed. intros Hwf Hstep.
  destruct Hstep as [user reply Hs|gs reply Hs|liked reply Hs Hsong|reply Hs|Hs];
    rewrite Hs in Hwf.
  - destruct (handleRegistration_cases s user reply) as [[sid ->]| ->]; simpl.
    + subst s. simpl. repeat split; eauto.
    + by rewrite Hs.
  - destruct Hwf as (Hu & Hq & Hi & Hr).
    destruct (handleStart_cases s gs reply) as [(q & _ & ->)| ->]; simpl;
      [|by rewrite Hs].
    rewrite Hi. repeat split; [done..|].
    destruct q; [by right|left; simpl; lia].
  - destruct Hwf as (Hu & Hr & Hi).
    destruct (handleSwipe_cases s liked reply) as [->| ->]; simpl;
      [by rewrite Hs|].
    destruct Hi as [Hi|[Hq _]];
      [|destruct Hsong as [song Hsong]; by rewrite Hq in Hsong].
    case_bool_decide; simpl; rewrite ?Hs.
    + repeat split; [done..| |lia]. intros Hq. rewrite Hq in Hi. simpl in Hi. lia.
    + repeat split; [done..|]. left. lia.
  - destruct Hwf as (Hu & Hr & Hq & Hi).
    destruct (getRecommendations_outcomes s reply)
      as [(row & rows & -> & Hsid)| ->]; simpl; done.
  - rewrite run_handleRestart. simpl. by destruct Hwf.
Qed.

Lemma reachable_well_formed s : reachable s → well_formed s.
Proof.
  intros Hreach. induction Hreach as [|s s' _ IH Hstep]; [done|].
  by eapply transition_well_formed.
Qed.

(** X1: in every run of the app in which each call (a registration, a
    genre submission, a swipe, the recommendations timer, a restart) is
    answered before anything else happens, the cursor is at most the
    queue length. *)
Theorem cursor_in_bounds rs :
  currentSongIndex (Async.live (Async.run_events Async.mount (Async.sequential rs)).1)
  ≤ length (songs (Async.live (Async.run_events Async.mount (Async.sequential rs)).1)).
Proof.
  pose proof (reachable_well_formed _ (Overlap.sequential_reachable rs)) as Hwf.
  destruct (Async.live _) as [stp ud sid q i rc]. unfold well_formed in Hwf.
  cbn [step userData sessionId songs currentSongIndex recs] in *.
  destruct stp.
  - by injection Hwf as _ _ -> ->.
  - destruct Hwf as (_ & -> & -> & _). done.
  - destruct Hwf as (_ & _ & [?|[-> ->]]); simpl; lia.
  - destruct Hwf as (_ & _ & _ & ->). done.
  - destruct Hwf as (_ & _ & _ & _ & ->). done.
Qed.

(** X2: in such a run, whenever the results step is shown there is at
    least one recommendation, a session id that is not empty, and the
    queue that was swiped is still in the state with the cursor at its
    end. *)
Theorem results_have_rows rs :
  step (Async.live (Async.run_events Async.mount (Async.sequential rs)).1)
    = recommendations →
  recs (Async.live (Async.run_events Async.mount (Async.sequential rs)).1) ≠ [] ∧
  truthy (sessionId (Async.live (Async.run_events Async.mount (Async.sequential rs)).1))
    = true ∧
  songs (Async.live (Async.run_events Async.mount (Async.sequential rs)).1) ≠ [] ∧
  currentSongIndex (Async.live (Async.run_events Async.mount (Async.sequential rs)).1)
    = length (songs (Async.live (Async.run_events Async.mount (Async.sequential rs)).1)).
Proof.
  pose proof (reachable_well_formed _ (Overlap.sequential_reachable rs)) as Hwf.
  intros Hstep. unfold well_formed in Hwf.
  rewrite Hstep in Hwf. by destruct Hwf as (_ & ? & ? & ? & ?).
Qed.

(** The results of the sample session. *)
Lemma results_have_rows_witness :
  recs (Async.live (Async.run_events Async.mount
                      (Async.sequential Overlaps.session)).1) ≠ [] ∧
  truthy (sessionId (Async.live (Async.run_events Async.mount
                                   (Async.sequential Overlaps.session)).1)) = true ∧
  songs (Async.live (Async.run_events Async.mount
                       (Async.sequential Overlaps.session)).1) ≠ [] ∧
  currentSongIndex (Async.live (Async.run_events Async.mount
                                  (Async.sequential Overlaps.session)).1)
    = length (songs (Async.live (Async.run_events Async.mount
                                   (Async.sequential Overlaps.session)).1)).
Proof.
  apply (results_have_rows Overlaps.session). reflexivity.
Defined.

(** X3: in such a run, whenever the loading step is shown the queue is
    not empty, the cursor is at its end and nothing is recommended yet. *)
Theorem loading_only_at_end rs :
  step (Async.live (Async.run_events Async.mount (Async.sequential rs)).1) = loading →
  songs (Async.live (Async.run_events Async.mount (Async.sequential rs)).1) ≠ [] ∧
  currentSongIndex (Async.live (Async.run_events Async.mount (Async.sequential rs)).1)
    = length (songs (Async.live (Async.run_events Async.mount (Async.sequential rs)).1)) ∧
  recs (Async.live (Async.run_events Async.mount (Async.sequential rs)).1) = [].
Proof.
  pose proof (reachable_well_formed _ (Overlap.sequential_reachable rs)) as Hwf.
  intros Hstep. unfold well_formed in Hwf.
  rewrite Hstep in Hwf. by destruct Hwf as (_ & ? & ? & ?).
Qed.

(** The sample session up to its swipe. *)
Lemma loading_only_at_end_witness :
  songs (Async.live (Async.run_events Async.mount
                       (Async.sequential (take 3 Overlaps.session))).1) ≠ [] ∧
  currentSongIndex (Async.live (Async.run_events Async.mount
                                  (Async.sequential (take 3 Overlaps.session))).1)
    = length (songs (Async.live (Async.run_events Async.mount
                                   (Async.sequential (take 3 Overlaps.session))).1)) ∧
  recs (Async.live (Async.run_events Async.mount
                      (Async.sequential (take 3 Overlaps.session))).1) = [].
Proof.
  apply (loading_only_at_end (take 3 Overlaps.session)). reflexivity.
Defined.

(** Outside the registration step the flow never returns to it and never
    touches the user data. *)
Lemma past_registration s s' :
  reaches s s' → step s ≠ registration →
  step s' ≠ registration ∧ userData s' = userData s.
Proof.
  intros Hreach Hs. induction Hreach as [|s1 s2 _ [IHstep IHuser] Hstep]; [done|].
  destruct Hstep as [user reply Hs1|gs reply Hs1|liked reply Hs1 Hsong|reply Hs1|Hs1];
    [done|..].
  - destruct (handleStart_cases s1 gs reply) as [(q & _ & ->)| ->]; simpl; done.
  - destruct (handleSwipe_cases s1 liked reply) as [->| ->]; simpl; [done|].
    case_bool_decide; rewrite ?Hs1; done.
  - destruct (getRecommendations_cases s1 reply) as [(rows & -> & _)| ->]; simpl; done.
  - rewrite run_handleRestart. simpl. done.
Qed.

(** X4: once a registration succeeded, no run of the flow shows the
    registration step again, and the user data stay the ones registered. *)
Theorem user_fixed_after_registration user reply sid s' :
  carries reply sid →
  reaches (run (handleRegistration user reply) initial).1 s' →
  step s' ≠ registration ∧ userData s' = Some user.
Proof.
  intros (response & body & -> & Hok & Hjson & <-).
  assert (Hrun : (run (handleRegistration user (Normal response)) initial).1
                 = mkState genres (Some user) (data body) [] 0 []).
  { handler; simpl. by rewrite Hjson, Hok. }
  rewrite Hrun. intros Hreach.
  destruct (past_registration _ _ Hreach) as [Hstep Huser]; [done|].
  by rewrite Huser.
Qed.

(** The sample run: the user of the results is the one registered. *)
Lemma user_fixed_after_registration_witness :
  step Sample2.shown ≠ registration ∧ userData Sample2.shown = Some Sample.user.
Proof.
  apply (user_fixed_after_registration Sample.user (success (Some "sid"))
           (Some "sid") Sample2.shown).
  - by eexists _, _.
  - eapply reaches_step; [eapply reaches_step; [eapply reaches_step;
      [apply reaches_refl|]|]|].
    + by apply (do_start Sample.registered ["pop"] (success [Sample.song0])).
    + apply (do_swipe Sample2.started true (success tt)); [done|]. by eexists.
    + by apply (do_recommendations Sample2.swiped (success (Some [Sample2.row0]))).
Defined.

(** Without a session id, outside the registration and results steps, the
    flow stays without one and away from the results. *)
Lemma session_stays_missing s0 s :
  reaches s0 s →
  truthy (sessionId s0) = false → step s0 ≠ registration → step s0 ≠ recommendations →
  truthy (sessionId s) = false ∧ step s ≠ registration ∧ step s ≠ recommendations.
Proof.
  intros Hreach H0 H1 H2. induction Hreach as [|s s' _ (IHs & IHr & IHc) Hstep]; [done|].
  destruct Hstep as [user reply Hs|gs reply Hs|liked reply Hs Hsong|reply Hs|Hs]; try done.
  - destruct (handleStart_cases s gs reply) as [(q & _ & ->)| ->]; simpl; done.
  - destruct (handleSwipe_cases s liked reply) as [->| ->]; simpl; [done|].
    case_bool_decide; rewrite ?Hs; done.
  - by rewrite getRecommendations_no_session.
Qed.

(** X5: a registration that succeeds with a reply that has no session id
    (or an empty one) still enters the genre step, and from there no run
    of the flow reaches the results. *)
Theorem registration_without_session_id user reply sid s' :
  carries reply sid → truthy sid = false →
  step (run (handleRegistration user reply) initial).1 = genres ∧
  sessionId (run (handleRegistration user reply) initial).1 = sid ∧
  (reaches (run (handleRegistration user reply) initial).1 s' →
   step s' ≠ recommendations).
Proof.
  intros (response & body & -> & Hok & Hjson & <-) Hsid.
  assert (Hrun : (run (handleRegistration user (Normal response)) initial).1
                 = mkState genres (Some user) (data body) [] 0 []).
  { handler; simpl. by rewrite Hjson, Hok. }
  rewrite Hrun. repeat split. intros Hreach.
  by destruct (session_stays_missing _ _ Hreach) as (_ & _ & ?).
Qed.

(** A reply without the property. *)
Lemma registration_without_session_id_witness :
  step Sample2.anonymous = genres ∧ sessionId Sample2.anonymous = None.
Proof.
  refine (let H := registration_without_session_id Sample.user (success None) None
                     Sample2.anonymous _ eq_refl in
          conj (proj1 H) (proj1 (proj2 H))).
  eexists _, _. repeat split; reflexivity.
Defined.

(** X6: a failed registration call leaves the state as it was; one request
    was posted and the user is shown the message of the failure. *)
Theorem registration_failure_keeps_form s user reply :
  failed reply = true →
  (run (handleRegistration user reply) s).1 = s ∧
  posts (run (handleRegistration user reply) s).2 = [UserLogin user] ∧
  alerts (run (handleRegistration user reply) s).2
    = [failure_message reply "Registration failed"].
Proof.
  intros Hfail. destruct s as [stp ud sid q i rc]. handler; simpl.
  destruct reply as [[[] [body|m]]|m]; simpl in *; done.
Qed.

(** A refusal that names its reason. *)
Lemma registration_failure_keeps_form_witness :
  alerts (run (handleRegistration Sample.user (failure (Some "Email taken") None))
              initial).2 = ["Email taken"].
Proof.
  exact (proj2 (proj2 (registration_failure_keeps_form initial Sample.user
                         (failure (Some "Email taken") None) eq_refl))).
Defined.

(** X7: a failed genre submission leaves the state as it was, in the genre
    step; one request was posted, with the genres and the session id, and
    the user is shown the message of the failure. *)
Theorem start_failure_stays s gs reply :
  failed reply = true →
  (run (handleStart gs reply) s).1 = s ∧
  posts (run (handleStart gs reply) s).2 = [InitialSongs gs (sessionId s)] ∧
  alerts (run (handleStart gs reply) s).2
    = [failure_message reply "Failed to fetch songs"].
Proof.
  intros Hfail. destruct s as [stp ud sid q i rc]. handler; simpl.
  destruct reply as [[[] [body|m]]|m]; simpl in *; done.
Qed.

(** A network failure. *)
Lemma start_failure_stays_witness :
  (run (handleStart ["pop"] (Throw "Failed to fetch")) Sample.registered).1
  = Sample.registered.
Proof.
  exact (proj1 (start_failure_stays Sample.registered ["pop"]
                  (Throw "Failed to fetch") eq_refl)).
Defined.

(** X8: with a session id, a recommendations reply that carries a list
    with at least one row enters the results step with these rows, in the
    order received; nothing else of the state changes and nothing is
    alerted. *)
Theorem recommendations_shown s reply row rows :
  truthy (sessionId s) = true → carries reply (Some (row :: rows)) →
  (run (getRecommendations reply) s).1 =
    mkState recommendations (userData s) (sessionId s) (songs s)
            (currentSongIndex s) (row :: rows) ∧
  posts (run (getRecommendations reply) s).2 = [GetRecommendations (sessionId s)] ∧
  alerts (run (getRecommendations reply) s).2 = [].
Proof.
  intros Hsid (response & body & -> & Hok & Hjson & Hdata). handler; simpl.
  rewrite Hsid; simpl. rewrite Hjson, Hok; simpl. rewrite Hdata; simpl. done.
Qed.

(** The results of the sample run. *)
Lemma recommendations_shown_witness :
  recs (run (getRecommendations (success (Some [Sample2.row0]))) Sample2.swiped).1
  = [Sample2.row0].
Proof.
  refine (f_equal recs (proj1 (recommendations_shown Sample2.swiped
            (success (Some [Sample2.row0])) Sample2.row0 [] eq_refl _))).
  eexists _, _. repeat split; reflexivity.
Defined.

(** X9: without a session id (null or empty) the recommendations call is
    not made at all: nothing is posted, the user is told that there is no
    active session, and the flow restarts. *)
Theorem recommendations_need_session s reply :
  truthy (sessionId s) = false →
  (run (getRecommendations reply) s).1 = (run handleRestart s).1 ∧
  posts (run (getRecommendations reply) s).2 = [] ∧
  alerts (run (getRecommendations reply) s).2
    = ["Failed to get recommendations: No active session"].
Proof. intros Hsid. handler; simpl. by rewrite Hsid. Qed.

(** The timer that fires after a restart took the session away. *)
Lemma recommendations_need_session_witness :
  posts (run (getRecommendations (success (Some [Sample2.row0])))
             (run handleRestart Sample.finished).1).2 = [].
Proof.
  exact (proj1 (proj2 (recommendations_need_session
                         (run handleRestart Sample.finished).1
                         (success (Some [Sample2.row0])) eq_refl))).
Defined.

(** X10: a swipe on a song that has a track id posts one request whatever
    the backend answers: the session id, the track id of the song under
    the cursor, and the decision. *)
Theorem swipe_posts_one_request s liked reply song track :
  songs s !! currentSongIndex s = Some song →
  track_id song = Some track → track ≠ "" →
  posts (run (handleSwipe liked reply) s).2 = [Swipe (sessionId s) track liked].
Proof.
  intros Hsong Htrack Hne.
  assert (Htruthy : truthy (track_id song) = true).
  { rewrite Htrack. simpl. apply negb_true_iff. by apply String.eqb_neq. }
  destruct (accepted reply) eqn:Hreply.
  - rewrite (handleSwipe_accepted s liked reply song Hreply Hsong Htruthy).
    rewrite Htrack. simpl. by case_bool_decide.
  - destruct (handleSwipe_failed_trace s liked reply track) as [m ->].
    + by destruct reply as [[[] ?]|?].
    + by rewrite Hsong.
    + by rewrite <- Htrack.
    + done.
Qed.

(** A dislike of the first sample song. *)
Lemma swipe_posts_one_request_witness :
  posts (run (handleSwipe false (success tt)) Sample.swiping2).2
  = [Swipe (Some "sid") "t0" false].
Proof.
  apply (swipe_posts_one_request Sample.swiping2 false (success tt) Sample.song0 "t0");
    [reflexivity|reflexivity|discriminate].
Defined.



End FlowInvariants.

(** ** Runs of one card ([SongCard.jsx]) *)

Module CardFacts.
Import SongCard CardTrace GestureRecognizer.

Lemma decisions_app o1 o2 : decisions (o1 ++ o2) = decisions o1 ++ decisions o2.
Proof. apply omap_app. Qed.

Lemma started_app o1 o2 : started (o1 ++ o2) = started o1 ++ started o2.
Proof. apply omap_app. Qed.

Lemma animateSwipe_begin_out d s s' out :
  animateSwipe_begin d s = Some (s', out) →
  decisions out = [] ∧ started out = [d].
Proof.
  unfold animateSwipe_begin. destruct (isAnimating s || negb (cardRef s)); [done|].
  intros [= <- <-]. by destruct (audioRef s).
Qed.

(** What a trigger puts out and what it leaves pending. *)
Lemma triggered_balance c t :
  (∀ d s out, t = Started d s out → decisions out = [] ∧ started out = [d]) →
  (∀ s out, t = Settled s out → decisions out = [] ∧ started out = []) →
  decisions (triggered c t).2 ++ (isLike <$> animations (triggered c t).1)
  = isLike <$> (animations c ++ started (triggered c t).2).
Proof.
  intros Hstarted Hsettled. destruct t as [|s out|d s out]; simpl.
  - by rewrite app_nil_r.
  - destruct (Hsettled s out eq_refl) as [-> ->]. by rewrite app_nil_r.
  - destruct (Hstarted d s out eq_refl) as [-> ->]. done.
Qed.

Lemma start_out d s otherwise :
  (∀ s0 out0, otherwise = Settled s0 out0 → decisions out0 = [] ∧ started out0 = []) →
  (∀ d0 s0 out0, otherwise ≠ Started d0 s0 out0) →
  (∀ d' s' out, start d s otherwise = Started d' s' out →
     decisions out = [] ∧ started out = [d']) ∧
  (∀ s' out, start d s otherwise = Settled s' out →
     decisions out = [] ∧ started out = []).
Proof.
  intros Hsettled Hnot. unfold start.
  destruct (animateSwipe_begin d s) as [[s1 out1]|] eqn:Hbegin.
  - split; [|done]. intros d' s' out [= <- <- <-].
    by eapply animateSwipe_begin_out.
  - split; [intros d' s' out Heq; by destruct (Hnot d' s' out)|done].
Qed.

Lemma step_balance c e :
  no_failure e = true →
  decisions (step c e).2 ++ (isLike <$> animations (step c e).1)
  = isLike <$> (animations c ++ started (step c e).2).
Proof.
  intros Hok. destruct e as [|o|o|k|d|settled|new|track reply]; cbn [step].
  - destruct (isAnimating (view c)); simpl; by rewrite app_nil_r.
  - simpl. by rewrite app_nil_r.
  - unfold onDragEnd. destruct (isAnimating (view c)); [simpl; by rewrite app_nil_r|].
    destruct (gt (Qabs o) 100).
    + apply triggered_balance; apply start_out;
        try (by intros ?? [= <- <-]); intros; congruence.
    + apply triggered_balance; [done|]. by intros ?? [= <- <-].
  - unfold handleKeyDown.
    destruct (isDragging (view c) || isAnimating (view c) || negb (has_song (view c)));
      [simpl; by rewrite app_nil_r|].
    destruct (String.eqb k "ArrowLeft");
      [apply triggered_balance; apply start_out; intros; congruence|].
    destruct (String.eqb k "ArrowRight");
      [apply triggered_balance; apply start_out; intros; congruence|].
    simpl; by rewrite app_nil_r.
  - unfold onClick. destruct (negb (isAnimating (view c)));
      [apply triggered_balance; apply start_out; intros; congruence|].
    simpl; by rewrite app_nil_r.
  - destruct settled as [[]|m]; [|done].
    destruct c as [v [|d rest] ds]; simpl; by rewrite ?app_nil_r.
  - assert (Hout : ∀ refetch s, decisions (song_effects refetch s).2 = []
                                ∧ started (song_effects refetch s).2 = []).
    { intros refetch s. unfold song_effects.
      destruct (song s ≫= track_id) as [t|]; [destruct (refetch && _)|];
        by destruct (audioRef s), (has_song s). }
    specialize (Hout (negb (bool_decide (track_id new = song (view c) ≫= track_id)))
                     (with_song (Some new) (view c))).
    destruct (song_effects _ _) as [s out]. simpl in *.
    destruct Hout as [-> ->]. by rewrite app_nil_r.
  - case_bool_decide; simpl; by rewrite app_nil_r.
Qed.

(** The decisions handed over and the animations still pending are the
    animations that were pending or started, in order. *)
Lemma run_balance es : ∀ c,
  Forall (λ e, no_failure e = true) es →
  decisions (run c es).2 ++ (isLike <$> animations (run c es).1)
  = isLike <$> (animations c ++ started (run c es).2).
Proof.
  induction es as [|e es IH]; intros c Hes; simpl.
  - by rewrite app_nil_r.
  - apply Forall_cons in Hes as [He Hes].
    pose proof (step_balance c e He) as Hstep.
    destruct (step c e) as [c1 out1]. specialize (IH c1 Hes).
    destruct (run c1 es) as [c2 out2]. simpl in *.
    rewrite decisions_app, started_app, <- app_assoc, IH.
    rewrite fmap_app, app_assoc, Hstep, !fmap_app. by rewrite app_assoc.
Qed.

(** X12: as long as no commit animation fails, the decisions the card
    has handed to [onSwipe], followed by the one of the animation still
    pending, are the directions of the animations it started, in order:
    every started animation hands over its own decision, once. *)
Theorem decisions_follow_animations s es :
  Forall (λ e, no_failure e = true) es →
  decisions (run (mount s).1 es).2
    ++ (isLike <$> animations (run (mount s).1 es).1)
  = isLike <$> started (run (mount s).1 es).2.
Proof.
  intros Hes. rewrite (run_balance es _ Hes).
  unfold mount. by destruct (song_effects _ _).
Qed.

(** A like, a dislike that fails before it is committed... *)
Lemma decisions_follow_animations_witness :
  decisions (run (mount Sample.song0).1
               [Click like; KeyDown "ArrowLeft"; AnimationSettled (Normal tt);
                DragStart; DragEnd (-150)]).2
    ++ (isLike <$> animations (run (mount Sample.song0).1
               [Click like; KeyDown "ArrowLeft"; AnimationSettled (Normal tt);
                DragStart; DragEnd (-150)]).1)
  = [true; false].
Proof.
  refine (decisions_follow_animations Sample.song0
            [Click like; KeyDown "ArrowLeft"; AnimationSettled (Normal tt);
             DragStart; DragEnd (-150)] _).
  repeat constructor.
Defined.

(** X13: on every card the component can be in, [isAnimating] is set
    exactly when a commit animation is pending, and at most one is. *)
Theorem flag_matches_pending s es :
  length (animations (run (mount s).1 es).1) ≤ 1 ∧
  (isAnimating (view (run (mount s).1 es).1) = true
   ↔ animations (run (mount s).1 es).1 ≠ []).
Proof.
  destruct (run_consistent s es) as [[Hrest ->]|(d & Hanim & ->)]; simpl.
  - split; [lia|]. rewrite Hrest. split; done.
  - split; [lia|]. rewrite Hanim. split; done.
Qed.

(** An event leaves the state variables alone that only the song effects
    and the detail reply set. *)
Lemma step_frame c e :
  same_song e = true →
  (∀ track reply, e = DetailSettled track reply → track ∉ details c) →
  song (view (step c e).1) = song (view c) ∧
  albumImage (view (step c e).1) = albumImage (view c) ∧
  imageLoaded (view (step c e).1) = imageLoaded (view c) ∧
  previewUrl (view (step c e).1) = previewUrl (view c) ∧
  details (step c e).1 = details c ∧
  SongCard.posted (step c e).2 = [] ∧
  (isSwipeLoading (view c) = true → isSwipeLoading (view (step c e).1) = true).
Proof.
  intros Hsame Hdetail.
  assert (Hstart : ∀ d s otherwise,
            start d s otherwise = otherwise ∨
            ∃ s' out, start d s otherwise = Started d s' out ∧
              song s' = song s ∧ albumImage s' = albumImage s ∧
              imageLoaded s' = imageLoaded s ∧ previewUrl s' = previewUrl s ∧
              SongCard.posted out = [] ∧ isSwipeLoading s' = true).
  { intros d s otherwise. unfold start, animateSwipe_begin.
    destruct (isAnimating s || negb (cardRef s)); [by left|].
    right. eexists _, _. split; [reflexivity|]. simpl. by destruct (audioRef s). }
  destruct e as [|o|o|k|d|settled|new|track reply]; cbn [step]; try done.
  - by destruct (isAnimating (view c)).
  - unfold onDrag. by destruct (negb (cardRef (view c)) || isAnimating (view c)).
  - unfold onDragEnd. destruct (isAnimating (view c)); [done|].
    destruct (gt (Qabs o) 100); [|done].
    destruct (Hstart (if gt o 0 then like else dislike) (setIsDragging false (view c))
                (Settled (setIsDragging false (view c)) []))
      as [->|(s' & out & -> & ? & ? & ? & ? & ? & ?)]; done.
  - unfold handleKeyDown.
    destruct (isDragging (view c) || isAnimating (view c) || negb (has_song (view c)));
      [done|].
    destruct (String.eqb k "ArrowLeft").
    { by destruct (Hstart dislike (view c) Ignored)
        as [->|(s' & out & -> & ? & ? & ? & ? & ? & ?)]. }
    destruct (String.eqb k "ArrowRight"); [|done].
    by destruct (Hstart like (view c) Ignored)
      as [->|(s' & out & -> & ? & ? & ? & ? & ? & ?)].
  - unfold onClick. destruct (negb (isAnimating (view c))); [|done].
    by destruct (Hstart d (view c) Ignored)
      as [->|(s' & out & -> & ? & ? & ? & ? & ? & ?)].
  - destruct (animations c) as [|d rest]; [done|]. by destruct settled.
  - rewrite bool_decide_eq_false_2; [done|]. by eapply Hdetail.
Qed.

Lemma step_spinner c e :
  same_song e = true → isSwipeLoading (view c) = true →
  isSwipeLoading (view (step c e).1) = true.
Proof.
  intros Hsame Hspin.
  destruct e as [|o|o|k|d|settled|new|track reply];
    try (apply step_frame; done).
  cbn [step]. case_bool_decide; [|done]. simpl.
  unfold fetchSongDetails_resume. by destruct reply as [[[] [body|m]]|m].
Qed.

Lemma run_spinner es : ∀ c,
  Forall (λ e, same_song e = true) es → isSwipeLoading (view c) = true →
  isSwipeLoading (view (run c es).1) = true.
Proof.
  induction es as [|e es IH]; intros c Hes Hspin; [done|]. simpl.
  apply Forall_cons in Hes as [He Hes].
  pose proof (step_spinner c e He Hspin) as Hstep.
  destruct (step c e) as [c1 out1]. specialize (IH c1 Hes Hstep).
  by destruct (run c1 es).
Qed.

(** X14: once a displayed card at rest is committed by a button, its
    spinner flag [isSwipeLoading] stays set through every run of events
    that brings no new song, whether the animation completes or fails. *)
Theorem spinner_stays_until_next_song c d es :
  at_rest c → is_Some (song (view c)) →
  Forall (λ e, same_song e = true) es →
  isSwipeLoading (view (run c (Click d :: es)).1) = true.
Proof.
  intros [Hrest _] Hsong Hes.
  change (Click d :: es) with ([Click d] ++ es). rewrite run_app.
  destruct (animateSwipe_begin_starts d (view c) Hrest Hsong) as (s' & out & Hbegin & _).
  assert (Hspin : isSwipeLoading (view (run c [Click d]).1) = true).
  { simpl. unfold onClick, start. rewrite Hrest, Hbegin. simpl.
    revert Hbegin. unfold animateSwipe_begin.
    destruct (isAnimating (view c) || negb (cardRef (view c))); [done|].
    by intros [= <- _]. }
  pose proof (run_spinner es _ Hes Hspin) as Hrun.
  destruct (run c [Click d]) as [c1 out1]. simpl in Hrun.
  by destruct (run c1 es).
Qed.

(** The like of a fresh card, its animation failing. *)
Lemma spinner_stays_until_next_song_witness :
  isSwipeLoading (view (run Sample.card0
      (Click like :: [AnimationSettled (Throw "driver"); KeyDown "x"])).1) = true.
Proof.
  apply (spinner_stays_until_next_song Sample.card0 like
           [AnimationSettled (Throw "driver"); KeyDown "x"]).
  - split; reflexivity.
  - eexists; reflexivity.
  - repeat constructor.
Defined.

Lemma run_frame es : ∀ c,
  details c = [] → Forall (λ e, same_song e = true) es →
  albumImage (view (run c es).1) = albumImage (view c) ∧
  imageLoaded (view (run c es).1) = imageLoaded (view c) ∧
  details (run c es).1 = [] ∧
  SongCard.posted (run c es).2 = [].
Proof.
  induction es as [|e es IH]; intros c Hnone Hes; [done|]. simpl.
  apply Forall_cons in Hes as [He Hes].
  destruct (step_frame c e He) as (_ & Himg & Hloaded & _ & Hdet & Hpost & _).
  { intros track reply _. rewrite Hnone. apply not_elem_of_nil. }
  destruct (step c e) as [c1 out1]. simpl in *.
  destruct (IH c1) as (Himg' & Hloaded' & Hdet' & Hpost'); [congruence|done|].
  destruct (run c1 es) as [c2 out2]. simpl in *.
  unfold SongCard.posted in *. rewrite omap_app, Hpost, Hpost'.
  repeat split; congruence.
Qed.

(** X15: when the next song has the track id of the one before and no
    detail request is pending, the card clears the album image but sends
    no detail request, so through every run of events without a further
    song the image stays cleared and is never marked loaded. *)
Theorem same_track_id_never_loads c new es :
  track_id new = song (view c) ≫= track_id → details c = [] →
  Forall (λ e, same_song e = true) es →
  albumImage (view (run c (SongProp new :: es)).1) = None ∧
  imageLoaded (view (run c (SongProp new :: es)).1) = false ∧
  SongCard.posted (run c (SongProp new :: es)).2 = [].
Proof.
  intros Hsame Hnone Hes.
  change (SongProp new :: es) with ([SongProp new] ++ es). rewrite run_app.
  assert (Hfirst : albumImage (view (run c [SongProp new]).1) = None ∧
                   imageLoaded (view (run c [SongProp new]).1) = false ∧
                   details (run c [SongProp new]).1 = [] ∧
                   SongCard.posted (run c [SongProp new]).2 = []).
  { simpl. rewrite bool_decide_eq_true_2 by done. unfold song_effects. simpl.
    rewrite Hnone.
    destruct (track_id new) as [t|]; simpl;
      by destruct (audioRef (with_song (Some new) (view c))). }
  destruct (run c [SongProp new]) as [c1 out1]. simpl in Hfirst.
  destruct Hfirst as (Himg & Hloaded & Hdet & Hpost).
  destruct (run_frame es c1 Hdet Hes) as (Himg' & Hloaded' & _ & Hpost').
  destruct (run c1 es) as [c2 out2]. simpl in *.
  unfold SongCard.posted in *. rewrite omap_app, Hpost, Hpost'.
  repeat split; congruence.
Qed.

(** The first sample song twice in a row, its detail answered before. *)
Lemma same_track_id_never_loads_witness :
  imageLoaded (view (run
      (step Sample.card0 (DetailSettled "t0" (success Sample.detail0))).1
      (SongProp Sample.song0 :: [Click like; AnimationSettled (Normal tt)])).1)
  = false.
Proof.
  refine (proj1 (proj2 (same_track_id_never_loads
            (step Sample.card0 (DetailSettled "t0" (success Sample.detail0))).1
            Sample.song0 [Click like; AnimationSettled (Normal tt)]
            eq_refl eq_refl _))).
  repeat constructor.
Defined.

Lemma step_preview c e :
  no_detail e = true → previewUrl (view (step c e).1) = previewUrl (view c).
Proof.
  intros He.
  assert (Hframe : same_song e = true →
            previewUrl (view (step c e).1) = previewUrl (view c)).
  { intros Hsame. destruct (step_frame c e Hsame) as (_ & _ & _ & H & _); [|done].
    intros track reply ->. done. }
  destruct e as [|o|o|k|d|settled|new|track reply]; try done;
    try (by apply Hframe).
  cbn [step]. unfold song_effects, has_song. cbn [with_song song].
  rewrite (bool_decide_eq_true_2 (is_Some (Some new))) by done.
  destruct (Some new ≫= track_id) as [t|]; [destruct (_ && _)|];
    simpl; try done; by destruct (audioRef _).
Qed.

(** X16: only a settled detail request changes the preview URL of the
    card: through every run of other events, new songs included, the
    preview URL stays the one the card had, so a new song starts with the
    preview of the song before. *)
Theorem preview_changes_only_by_detail c es :
  Forall (λ e, no_detail e = true) es →
  previewUrl (view (run c es).1) = previewUrl (view c).
Proof.
  revert c. induction es as [|e es IH]; intros c Hes; [done|]. simpl.
  apply Forall_cons in Hes as [He Hes].
  pose proof (step_preview c e He) as Hstep.
  destruct (step c e) as [c1 out1]. specialize (IH c1 Hes).
  destruct (run c1 es) as [c2 out2]. simpl in *. congruence.
Qed.

(** The first card with its preview, swiped, then given the second song. *)
Lemma preview_changes_only_by_detail_witness :
  let c := (step Sample.card0 (DetailSettled "t0" (success Sample.detail0))).1 in
  let es := [Click like; AnimationSettled (Normal tt); SongProp Sample.song1] in
  previewUrl (view (run c es).1) = Some "k.mp3".
Proof.
  apply (preview_changes_only_by_detail
           (step Sample.card0 (DetailSettled "t0" (success Sample.detail0))).1
           [Click like; AnimationSettled (Normal tt); SongProp Sample.song1]).
  repeat (apply Forall_cons_2; [reflexivity|]). apply Forall_nil_2.
Defined.

Lemma keys_ignored c ks :
  isDragging (view c) = true → run c (keys ks) = (c, []).
Proof.
  intros Hdrag. induction ks as [|k ks IH]; [done|].
  unfold keys in *. cbn [fmap list_fmap run step].
  unfold handleKeyDown. rewrite Hdrag. cbn [orb triggered]. by rewrite IH.
Qed.

(** X17: a release that arrives during a commit animation returns before
    [setIsDragging(false)]: if the card was being dragged when the
    animation started, it still counts as dragged once the animation is
    over, and every key press is ignored. *)
Theorem drag_flag_outlives_animation c d o settled ks :
  animating c d → isDragging (view c) = true →
  at_rest (run c [DragEnd o; AnimationSettled settled]).1 ∧
  isDragging (view (run c [DragEnd o; AnimationSettled settled]).1) = true ∧
  run (run c [DragEnd o; AnimationSettled settled]).1 (keys ks)
  = ((run c [DragEnd o; AnimationSettled settled]).1, []).
Proof.
  intros [Hanim Hpending] Hdrag.
  assert (Hrun : run c [DragEnd o; AnimationSettled settled]
                 = (mkCard (animateSwipe_resume d settled (view c)).1 [] (details c),
                    (animateSwipe_resume d settled (view c)).2)).
  { cbn [run]. rewrite (trigger_ignored c (DragEnd o) Hanim eq_refl).
    cbn [step]. rewrite Hpending.
    destruct (animateSwipe_resume d settled (view c)). simpl. by rewrite app_nil_r. }
  rewrite Hrun. cbn [fst].
  assert (Hflag : isDragging (animateSwipe_resume d settled (view c)).1 = true)
    by (by destruct settled).
  split; [by destruct settled|]. split; [done|].
  by apply keys_ignored.
Qed.

(** The like button pressed during a drag, then the release and the end
    of the animation; the arrow keys are dead. *)
Lemma drag_flag_outlives_animation_witness :
  run (run Sample.pressed [DragEnd 150; AnimationSettled (Normal tt)]).1
      (keys ["ArrowLeft"; "ArrowRight"])
  = ((run Sample.pressed [DragEnd 150; AnimationSettled (Normal tt)]).1, []).
Proof.
  exact (proj2 (proj2 (drag_flag_outlives_animation Sample.pressed like 150
                         (Normal tt) ["ArrowLeft"; "ArrowRight"]
                         (conj eq_refl eq_refl) eq_refl))).
Defined.

(** X18: a detail request that gives nothing (network failure, status not
    a success, body not JSON) leaves the card without album image and
    without preview URL, marked loaded; and whatever the request answers,
    a card at rest can still be committed. *)
Theorem card_survives_detail c track reply d :
  track ∈ details c → at_rest c → is_Some (song (view c)) →
  (detail_of reply = None →
     albumImage (view (step c (DetailSettled track reply)).1) = None ∧
     previewUrl (view (step c (DetailSettled track reply)).1) = None ∧
     imageLoaded (view (step c (DetailSettled track reply)).1) = true) ∧
  decisions (run c [DetailSettled track reply; Click d;
                    AnimationSettled (Normal tt)]).2 = [isLike d].
Proof.
  intros Hpending [Hrest Hnone] Hsong. split.
  - intros Hnothing. cbn [step]. rewrite bool_decide_eq_true_2 by done. simpl.
    unfold fetchSongDetails_resume.
    by destruct reply as [[[] [body|m]]|m].
  - cbn [run step]. rewrite bool_decide_eq_true_2 by done.
    set (s1 := fetchSongDetails_resume reply (view c)).
    assert (Hrest1 : isAnimating s1 = false).
    { subst s1. unfold fetchSongDetails_resume.
      by destruct reply as [[[] [body|m]]|m]. }
    assert (Hsong1 : is_Some (song s1)).
    { subst s1. unfold fetchSongDetails_resume.
      by destruct reply as [[[] [body|m]]|m]. }
    destruct (animateSwipe_begin_starts d s1 Hrest1 Hsong1)
      as (s' & out & Hbegin & _ & Hout).
    cbn [view]. unfold onClick, start. rewrite Hrest1, Hbegin. cbn [negb triggered].
    cbn [animations]. rewrite Hnone. simpl.
    unfold decisions in *. rewrite omap_app, Hout. done.
Qed.

(** The detail of the fresh card fails in the network; the card is liked. *)
Lemma card_survives_detail_witness :
  decisions (run Sample.card0 [DetailSettled "t0" (Throw "Failed to fetch");
                               Click like; AnimationSettled (Normal tt)]).2 = [true].
Proof.
  refine (proj2 (card_survives_detail Sample.card0 "t0" (Throw "Failed to fetch")
                   like _ (conj eq_refl eq_refl) _)).
  - vm_compute. apply list_elem_of_here.
  - eexists; reflexivity.
Defined.

End CardFacts.

(** ** A whole swiping session ([SongCard.jsx] inside [App.jsx]) *)

Module SessionRun.
Import SongCard Session GestureRecognizer FlowController Overlap SwipeSession.
Import Swiping (Card, Flow).

(** The card a render leaves, and its requests. *)
Lemma render_next a a1 c :
  isAnimating (view c) = false → animations c = [] →
  App.currentSongIndex a1 ≠ App.currentSongIndex a →
  ∃ c' t,
    Swiping.render a a1 (Some c) [] = (c', [], t) ∧ swipes t = [] ∧
    (Swiping.active a1 = None → c' = None) ∧
    (is_Some (Swiping.active a1) →
       ∃ c1, c' = Some c1 ∧ at_rest c1 ∧ is_Some (song (view c1))).
Proof.
  intros Hrest Hnone Hmoved. unfold Swiping.render.
  destruct (Swiping.active a1) as [next|]; [|eexists _, _; repeat split; by intros []].
  rewrite decide_False by (intros [? _]; done).
  cbn [SongCard.step].
  pose proof (song_effects_isAnimating
                (negb (bool_decide (track_id next = song (view c) ≫= track_id)))
                (with_song (Some next) (view c))) as Hsame.
  assert (Hsong' : is_Some (song (song_effects
                (negb (bool_decide (track_id next = song (view c) ≫= track_id)))
                (with_song (Some next) (view c))).1)).
  { unfold song_effects. cbn [with_song song].
    destruct (Some next ≫= track_id) as [t|]; [destruct (_ && _)|];
      destruct (has_song _); simpl; eauto. }
  destruct (song_effects _ _) as [s3 out3]. simpl in *.
  eexists _, _. split; [reflexivity|]. split; [apply swipes_requests|].
  split; [done|]. intros _. eexists. split; [done|]. split; [|done].
  split; simpl; congruence.
Qed.

(** One commit of the song under the cursor that the backend accepts
    before anything else happens. *)
Lemma commit_accepted sys d reply s :
  ready sys →
  App.songs (Swiping.app sys) !! App.currentSongIndex (Swiping.app sys) = Some s →
  truthy (track_id s) = true → accepted reply = true →
  ∃ sys' t,
    Swiping.run sys (commit (d, reply)) = (sys', t) ∧
    Swiping.app sys' =
      App.mkState
        (if bool_decide (length (App.songs (Swiping.app sys))
                         ≤ App.currentSongIndex (Swiping.app sys) + 1)
         then App.loading else App.swiping)
        (App.userData (Swiping.app sys)) (App.sessionId (Swiping.app sys))
        (App.songs (Swiping.app sys))
        (App.currentSongIndex (Swiping.app sys) + 1)
        (App.recs (Swiping.app sys)) ∧
    swipes t = [(default "" (track_id s), isLike d)] ∧
    (App.currentSongIndex (Swiping.app sys) + 1 < length (App.songs (Swiping.app sys)) →
       ready sys') ∧
    (length (App.songs (Swiping.app sys)) ≤ App.currentSongIndex (Swiping.app sys) + 1 →
       Swiping.card sys' = None).
Proof.
  intros (Hquiet & Hhs & Hstep & Hsome & c & Hcard & Hrest & Hsong) Hactive Htruthy Hreply.
  destruct sys as [[a rg st sw tm lk] oc hs]. unfold Swiping.app, Async.quiet in *.
  cbn [Swiping.flow Swiping.card Swiping.handlers Async.live] in *.
  injection Hquiet as -> -> -> -> ->. subst hs oc.
  fold (Async.quiet a) in *.
  destruct (press (Swiping.mkSystem (Async.quiet a) (Some c) []) c d eq_refl Hrest Hsong eq_refl)
    as (s1 & Hpress & Hsong1).
  pose proof (settle (Swiping.mkSystem (Async.quiet a) (Some (mkCard s1 [d] (details c))) [a])
                _ d a eq_refl eq_refl eq_refl) as Hsettle.
  cbn [Swiping.flow view details] in Hsettle.
  unfold Swiping.app in Hpress. cbn [Swiping.flow Async.live Async.quiet] in Hpress.
  pose proof (handleSwipe_accepted a (isLike d) reply s Hreply Hactive Htruthy) as Hswipe.
  rewrite handleSwipe_split in Hswipe. rewrite Hstep in Hswipe.
  assert (Hawaits : Async.handleSwipe_awaits a = true).
  { unfold Async.handleSwipe_awaits. rewrite Hactive. simpl. rewrite Htruthy.
    apply lookup_lt_Some in Hactive. rewrite bool_decide_eq_false_2 by lia. done. }
  rewrite Hawaits in Hswipe.
  assert (Hbegin : App.run (Async.handleSwipe_begin a (isLike d)) a =
            (a, [GAEvent "User Interaction" "Song Swipe"
                   (Some (if isLike d then "Like" else "Dislike"));
                 Post (Swipe (App.sessionId a) (default "" (track_id s)) (isLike d))])).
  { unfold Async.handleSwipe_begin. handler; simpl.
    apply lookup_lt_Some in Hactive as Hlt. rewrite bool_decide_eq_false_2 by lia.
    rewrite Hactive. simpl. by rewrite Htruthy. }
  rewrite Hbegin in Hswipe.
  destruct (App.run (Async.handleSwipe_resume a reply) a) as [a1 t2] eqn:Hresume.
  injection Hswipe as Ha1 Ht2.
  unfold Async.onSwipe in Hsettle.
  cbn [Async.live Async.quiet Async.registrations Async.starts Async.swipes
       Async.timers Async.lookups] in Hsettle.
  rewrite Hbegin, Hawaits in Hsettle. cbn [fst snd app] in Hsettle.
  assert (Hmoved : App.currentSongIndex a1 ≠ App.currentSongIndex a)
    by (subst a1; simpl; lia).
  destruct (render_next a a1
              (mkCard (setIsAnimating false (with_pose neutral s1)) [] (details c))
              eq_refl eq_refl Hmoved)
    as (c' & t3 & Hrender & Ht3 & Hnone & Hnext).
  eexists _, _. split; [|split; [|split; [|split]]].
  - unfold commit. cbn [fst snd Swiping.run]. rewrite Hpress, Hsettle.
    cbn [Swiping.step Swiping.flow Swiping.card Swiping.handlers Async.step
         Async.swipes lookup list_lookup Async.live Async.registrations
         Async.starts Async.timers Async.lookups].
    rewrite Hresume. unfold Swiping.app.
    cbn [Swiping.flow Async.live Async.registrations Async.starts Async.swipes
         Async.timers Async.lookups delete list_delete].
    rewrite Hrender. reflexivity.
  - done.
  - rewrite ?swipes_app, Ht3, ?app_nil_r. subst t2. cbn [app].
    rewrite ?swipes_app. simpl. by case_bool_decide.
  - intros Hmore. subst t2. rewrite bool_decide_eq_false_2 in * by lia.
    destruct Hnext as (c1 & -> & Hrest1 & Hsong').
    { unfold Swiping.active. subst a1. cbn [App.step App.songs App.currentSongIndex].
      rewrite decide_True by done. by apply lookup_lt_is_Some_2. }
    unfold ready, Swiping.app. cbn [Swiping.flow Swiping.card Swiping.handlers Async.live].
    split; [done|]. split; [done|]. split; [by subst a1|].
    split; [subst a1; simpl; by apply lookup_lt_is_Some_2|].
    by exists c1.
  - intros Hlast. cbn [Swiping.card]. apply Hnone. unfold Swiping.active. subst a1.
    cbn [App.step]. rewrite bool_decide_eq_true_2 by lia. by rewrite decide_False.
Qed.

(** X19: from a card at rest on the song under the cursor and with
    nothing in flight, one button press per remaining song, each with its
    animation completed and its swipe accepted by the backend before the
    next press, posts exactly one swipe per remaining song, in queue order
    and with the decision pressed for it, and ends in the loading step
    with no card shown. *)
Theorem session_posts_every_decision cs : ∀ sys,
  ready sys →
  Forall (λ s, truthy (track_id s) = true) (App.songs (Swiping.app sys)) →
  Forall (λ c, accepted c.2 = true) cs →
  length cs = length (remaining (Swiping.app sys)) →
  App.step (Swiping.app (Swiping.run sys (commits cs)).1) = App.loading ∧
  Swiping.card (Swiping.run sys (commits cs)).1 = None ∧
  swipes (Swiping.run sys (commits cs)).2
    = zip (remaining (Swiping.app sys)) (isLike <$> cs.*1).
Proof.
  induction cs as [|[d reply] cs IH]; intros sys Hready Hvalid Hok Hlen.
  - destruct Hready as (_ & _ & _ & [s Hs] & _). unfold remaining in Hlen.
    apply lookup_lt_Some in Hs. rewrite length_fmap, length_drop in Hlen.
    simpl in Hlen. lia.
  - apply Forall_cons in Hok as [Hreply Hok]. simpl in Hreply.
    pose proof Hready as (_ & _ & Hstep & [s Hs] & _).
    assert (Htruthy : truthy (track_id s) = true)
      by (eapply (Forall_lookup_1 _ _ _ _ Hvalid Hs)).
    destruct (commit_accepted sys d reply s Hready Hs Htruthy Hreply)
      as (sys' & t & Hrun & Happ & Ht & Hmore & Hlast).
    unfold commits. cbn [fmap list_fmap concat]. fold (commits cs).
    rewrite system_run_app, Hrun.
    assert (Hrem : remaining (Swiping.app sys)
                   = default "" (track_id s) :: remaining (Swiping.app sys')).
    { unfold remaining. rewrite Happ. cbn [App.songs App.currentSongIndex].
      rewrite (drop_S _ _ _ Hs), Nat.add_1_r. done. }
    rewrite Hrem in Hlen |- *. simpl in Hlen.
    assert (Hleft : length (remaining (Swiping.app sys'))
              = length (App.songs (Swiping.app sys))
                - (App.currentSongIndex (Swiping.app sys) + 1)).
    { unfold remaining. rewrite Happ. cbn [App.songs App.currentSongIndex].
      by rewrite length_fmap, length_drop. }
    destruct cs as [|c1 cs'].
    + assert (Hend : length (App.songs (Swiping.app sys))
                     ≤ App.currentSongIndex (Swiping.app sys) + 1) by (simpl in Hlen; lia).
      cbn [commits fmap list_fmap concat Swiping.run fst snd].
      rewrite app_nil_r, Ht, Happ, (Hlast Hend). cbn [App.step].
      rewrite bool_decide_eq_true_2 by done. repeat split.
      cbn [zip_with fmap list_fmap fst]. f_equal.
      match goal with |- [] = zip ?l [] => by destruct l end.
    + assert (Hnotend : App.currentSongIndex (Swiping.app sys) + 1
                        < length (App.songs (Swiping.app sys))) by (simpl in Hlen; lia).
      destruct (IH sys') as (Hs1 & Hs2 & Hs3).
      * by apply Hmore.
      * by rewrite Happ.
      * done.
      * lia.
      * destruct (Swiping.run sys' (commits (c1 :: cs'))) as [sys2 t2].
        simpl in *. rewrite swipes_app, Ht, Hs3. done.
Qed.

(** Two songs: a like, then a dislike. *)
Lemma session_posts_every_decision_witness :
  let cs := [(like, success tt); (dislike, success tt)] in
  App.step (Swiping.app (Swiping.run Sample.mounted (commits cs)).1) = App.loading ∧
  Swiping.card (Swiping.run Sample.mounted (commits cs)).1 = None ∧
  swipes (Swiping.run Sample.mounted (commits cs)).2
    = zip (remaining (Swiping.app Sample.mounted)) (isLike <$> cs.*1).
Proof.
  apply (session_posts_every_decision
           [(like, success tt); (dislike, success tt)] Sample.mounted).
  - split; [reflexivity|]. split; [reflexivity|]. split; [reflexivity|].
    split; [by eexists|].
    exists Sample.card0. split; [reflexivity|]. split; [|by eexists].
    vm_compute. auto.
  - repeat (apply Forall_cons_2; [reflexivity|]). apply Forall_nil_2.
  - repeat (apply Forall_cons_2; [reflexivity|]). apply Forall_nil_2.
  - reflexivity.
Defined.

End SessionRun.

(** ** Runs of the results page ([Recommendations.jsx]) *)

Module ResultsPage.
Import Recommendations Results PlaybackController.

(** How a change of one row shows in a row's flags. *)
Lemma sounding_at_row f r st req pl r' :
  sounding (mkPage (at_row f r st) req pl) r'
  = if decide (r = r')
    then match items st !! r with Some it => playing (f it) | None => false end
    else sounding (mkPage st req pl) r'.
Proof.
  unfold sounding, at_row; simpl. destruct (decide (r = r')) as [->|Hne].
  - rewrite lookup_alter_eq. by destruct (items st !! r').
  - by rewrite lookup_alter_ne.
Qed.

Lemma sounding_setCurrentlyPlaying v st req pl r :
  sounding (mkPage (setCurrentlyPlaying v st) req pl) r = true →
  sounding (mkPage st req pl) r = true.
Proof.
  unfold sounding, setCurrentlyPlaying; simpl.
  destruct (currentlyPlaying st) as [a|]; [|done].
  case_bool_decide; [done|]. simpl.
  destruct (decide (a = r)) as [->|Hne].
  - rewrite lookup_alter_eq. by destruct (items st !! r).
  - by rewrite lookup_alter_ne.
Qed.

Lemma sounding_setCurrentlyPlaying_same v st req pl r :
  currentlyPlaying st = None ∨ currentlyPlaying st = v →
  sounding (mkPage (setCurrentlyPlaying v st) req pl) r
  = sounding (mkPage st req pl) r.
Proof.
  unfold sounding, setCurrentlyPlaying; simpl.
  intros [->| <-]; [done|].
  destruct (currentlyPlaying st) as [a|]; [|done].
  by rewrite bool_decide_eq_true_2.
Qed.

Lemma currentlyPlaying_setCurrentlyPlaying v st :
  currentlyPlaying (setCurrentlyPlaying v st) = v.
Proof.
  unfold setCurrentlyPlaying. destruct (currentlyPlaying st); [|done].
  by case_bool_decide.
Qed.

Lemma sounding_stopCurrentAudio st req pl r :
  sounding (mkPage (stopCurrentAudio st) req pl) r = false.
Proof.
  unfold sounding; simpl.
  destruct (items (stopCurrentAudio st) !! r) as [it|] eqn:Hit; [|done].
  by eapply stopCurrentAudio_silent.
Qed.

Lemma lookup_stopCurrentAudio st r :
  is_Some (items st !! r) → is_Some (items (stopCurrentAudio st) !! r).
Proof.
  intros [it Hit]. unfold stopCurrentAudio, setCurrentlyPlaying; simpl.
  assert (Hp : is_Some ((pause <$> items st) !! r))
    by (rewrite lookup_fmap, Hit; by eexists).
  destruct (currentlyPlaying st) as [a|]; simpl; [|done].
  destruct (decide (a = r)) as [->|Hne].
  - rewrite lookup_alter_eq. destruct Hp as [x ->]. by eexists.
  - by rewrite lookup_alter_ne.
Qed.

Lemma only_row_at_most_one p r :
  (∀ r', sounding p r' = true → r' = r) → at_most_one p.
Proof. intros Honly r1 r2 H1 H2. by rewrite (Honly r1 H1), (Honly r2 H2). Qed.

Lemma quiet_at_most_one p : quiet p → at_most_one p.
Proof.
  intros (_ & _ & Hcp) r1 r2 H1 H2.
  pose proof (Hcp r1 H1). pose proof (Hcp r2 H2). congruence.
Qed.

Lemma silent_quiet st :
  (∀ r, sounding (mkPage st [] []) r = false) → quiet (mkPage st [] []).
Proof. intros Hsilent. repeat split. intros r Hr. by rewrite Hsilent in Hr. Qed.

Lemma played_quiet r b settled st :
  starting r st → quiet (mkPage (togglePlay_played r b settled st) [] []).
Proof.
  intros [Hcp Honly]. destruct settled as [[]|m]; cbn [togglePlay_played].
  - repeat split. intros r' Hr'. cbn [ui].
    rewrite sounding_setCurrentlyPlaying_same in Hr' by auto.
    rewrite currentlyPlaying_setCurrentlyPlaying. f_equal. symmetry. by eapply Honly.
  - apply silent_quiet. intros r'.
    assert (Hsilent : sounding (mkPage (at_row pause r st) [] []) r' = false).
    { rewrite sounding_at_row. case_decide as Hr.
      - by destruct (items st !! r).
      - apply not_true_is_false. intros Hr'. apply Honly in Hr'. congruence. }
    destruct b; [|done]. rewrite sounding_at_row. case_decide as Hr; [|done].
    subst r'. rewrite sounding_at_row, decide_True in Hsilent by done.
    unfold at_row; simpl. rewrite lookup_alter_eq.
    destruct (items st !! r); simpl in *; done.
Qed.

Lemma play_after_stop_starting r st :
  starting r (at_row play r (stopCurrentAudio st)).
Proof.
  split.
  - unfold at_row; simpl. apply currentlyPlaying_setCurrentlyPlaying.
  - intros req pl r'. rewrite sounding_at_row. case_decide; [done|].
    by rewrite sounding_stopCurrentAudio.
Qed.

Lemma press_quiet p r reply settled :
  quiet p →
  quiet (run p (press p r reply settled)) ∧
  ∀ es, es `prefix_of` press p r reply settled → at_most_one (run p es).
Proof.
  intros Hquiet. pose proof Hquiet as (Hreq & Hpl & Hcp).
  destruct p as [st req pl]. simpl in Hreq, Hpl. subst req pl.
  unfold press. cbn [ui].
  destruct (items st !! r) as [it|] eqn:Hit.
  2: { assert (Hrun : run (mkPage st [] []) [Click r] = mkPage st [] []).
       { unfold run; simpl. unfold togglePlay_begin. by rewrite Hit. }
       rewrite Hrun. split; [done|]. intros es [k Hk].
       destruct es as [|e [|e1 es]]; simplify_eq/=.
       - by apply quiet_at_most_one.
       - fold (run (mkPage st [] []) [Click r]). rewrite Hrun.
         by apply quiet_at_most_one. }
  destruct (isPlaying st r) eqn:Hplaying.
  { assert (Hrun : run (mkPage st [] []) [Click r]
                   = mkPage (setCurrentlyPlaying None (at_row pause r st)) [] []).
    { unfold run; simpl. unfold togglePlay_begin. by rewrite Hit, Hplaying. }
    assert (Hq : quiet (mkPage (setCurrentlyPlaying None (at_row pause r st)) [] [])).
    { apply silent_quiet. intros r'. apply not_true_is_false. intros Hr'.
      apply sounding_setCurrentlyPlaying in Hr'. rewrite sounding_at_row in Hr'.
      case_decide as Hr; [by rewrite Hit in Hr'|].
      apply Hcp in Hr'. simpl in Hr'.
      apply bool_decide_eq_true_1 in Hplaying. congruence. }
    rewrite Hrun. split; [done|]. intros es [k Hk].
    destruct es as [|e [|e1 es]]; simplify_eq/=.
    - by apply quiet_at_most_one.
    - fold (run (mkPage st [] []) [Click r]). rewrite Hrun.
      by apply quiet_at_most_one. }
  destruct (truthy (previewUrl it)) eqn:Hpreview.
  - pose proof (play_after_stop_starting r st) as Hstart.
    set (st1 := at_row play r (stopCurrentAudio st)) in *.
    assert (Hrun1 : run (mkPage st [] []) [Click r] = mkPage st1 [] [(r, cached)]).
    { unfold run; simpl. unfold togglePlay_begin.
      by rewrite Hit, Hplaying, Hpreview. }
    assert (Hrun2 : run (mkPage st [] []) [Click r; PlaySettled r cached settled]
                    = mkPage (togglePlay_played r cached settled st1) [] []).
    { change [Click r; PlaySettled r cached settled]
        with ([Click r] ++ [PlaySettled r cached settled]).
      unfold run in *. rewrite foldl_app, Hrun1. simpl.
      rewrite bool_decide_eq_true_2 by apply list_elem_of_here.
      by rewrite decide_True. }
    rewrite Hrun2. split; [by apply played_quiet|]. intros es [k Hk].
    destruct es as [|e [|e1 [|e2 es]]]; simplify_eq/=.
    + by apply quiet_at_most_one.
    + fold (run (mkPage st [] []) [Click r]). rewrite Hrun1.
      apply (only_row_at_most_one _ r). apply Hstart.
    + fold (run (mkPage st [] []) [Click r; PlaySettled r cached settled]).
      rewrite Hrun2. by apply quiet_at_most_one, played_quiet.
  - set (st1 := stopCurrentAudio st).
    assert (Hrun1 : run (mkPage st [] []) [Click r] = mkPage st1 [r] []).
    { unfold run; simpl. unfold togglePlay_begin.
      by rewrite Hit, Hplaying, Hpreview. }
    assert (Hcp1 : currentlyPlaying st1 = None)
      by apply currentlyPlaying_setCurrentlyPlaying.
    assert (Hsilent1 : ∀ req pl r', sounding (mkPage st1 req pl) r' = false)
      by (intros; apply sounding_stopCurrentAudio).
    assert (Halert : ∀ req pl r',
              sounding (mkPage (at_row setShowAlert r st1) req pl) r' = false).
    { intros req pl r'. rewrite sounding_at_row. case_decide; [|done].
      specialize (Hsilent1 [] [] r). unfold sounding in Hsilent1. simpl in Hsilent1.
      by destruct (items st1 !! r). }
    destruct (togglePlay_detail r reply st1) as [st2 w] eqn:Hdetail.
    assert (Hcases : (w = Nothing ∧ st2 = at_row setShowAlert r st1)
                     ∨ (w = AwaitPlay fetched ∧ starting r st2)).
    { revert Hdetail. unfold togglePlay_detail.
      destruct reply as [[[] [body|m]]|m]; cbn [ok json negb];
        try (intros ?; simplify_eq; by left).
      destruct (preview_url (data body)) as [url|];
        [|intros ?; simplify_eq; by left].
      destruct (truthy (Some url)); [|intros ?; simplify_eq; by left].
      intros ?; simplify_eq. right. split; [done|]. split; [done|].
      intros req pl r'. rewrite sounding_at_row. case_decide; [done|].
      rewrite sounding_at_row. case_decide; [done|]. by rewrite Hsilent1. }
    assert (Hrun2 : run (mkPage st [] []) [Click r; DetailSettled r reply]
                    = waiting (mkPage st1 [] []) r st2 w).
    { change [Click r; DetailSettled r reply]
        with ([Click r] ++ [DetailSettled r reply]).
      unfold run in *. rewrite foldl_app, Hrun1. simpl.
      rewrite bool_decide_eq_true_2 by apply list_elem_of_here.
      rewrite decide_True by done. fold st1. by rewrite Hdetail. }
    assert (Hrun3 : ∃ st3,
              run (mkPage st [] [])
                  [Click r; DetailSettled r reply; PlaySettled r fetched settled]
              = mkPage st3 [] [] ∧ quiet (mkPage st3 [] [])).
    { change [Click r; DetailSettled r reply; PlaySettled r fetched settled]
        with ([Click r; DetailSettled r reply] ++ [PlaySettled r fetched settled]).
      unfold run in *. rewrite foldl_app, Hrun2.
      destruct Hcases as [[-> ->]|[-> Hstart]]; simpl.
      - eexists. split; [reflexivity|]. apply silent_quiet. apply Halert.
      - rewrite bool_decide_eq_true_2 by apply list_elem_of_here.
        rewrite decide_True by done. eexists. split; [reflexivity|].
        by apply played_quiet. }
    destruct Hrun3 as (st3 & Hrun3 & Hq3). rewrite Hrun3. split; [done|].
    intros es [k Hk].
    destruct es as [|e [|e1 [|e2 [|e3 es]]]]; simplify_eq/=.
    + by apply quiet_at_most_one.
    + fold (run (mkPage st [] []) [Click r]). rewrite Hrun1.
      apply (only_row_at_most_one _ r). intros r' Hr'. by rewrite Hsilent1 in Hr'.
    + fold (run (mkPage st [] []) [Click r; DetailSettled r reply]). rewrite Hrun2.
      apply (only_row_at_most_one _ r).
      destruct Hcases as [[-> ->]|[-> [_ Honly]]]; simpl.
      * intros r' Hr'. by rewrite Halert in Hr'.
      * apply Honly.
    + fold (run (mkPage st [] [])
                [Click r; DetailSettled r reply; PlaySettled r fetched settled]).
      rewrite Hrun3. by apply quiet_at_most_one.
Qed.

Lemma mount_quiet tracks : quiet (mount tracks).
Proof.
  apply silent_quiet. intros r. unfold sounding; simpl.
  destruct (list_to_map _ !! r) as [it|] eqn:Hit; [|done].
  apply elem_of_list_to_map_2, list_elem_of_fmap in Hit as (t & [= _ ->] & _).
  done.
Qed.

Lemma presses_quiet l : ∀ p, quiet p → quiet (presses p l).
Proof.
  induction l as [|[[r reply] settled] l IH]; intros p Hq; [done|].
  simpl. apply IH. by apply press_quiet.
Qed.

(** X20: when every press of a play button is settled (preview request
    answered, [play()] promise settled) before the next press, then from
    the page as mounted at most one audio element is playing in every
    state the page goes through. *)
Theorem presses_keep_one_source tracks l r reply settled es :
  es `prefix_of` press (presses (mount tracks) l) r reply settled →
  at_most_one (run (presses (mount tracks) l) es).
Proof.
  intros Hes. eapply press_quiet; [|done].
  apply presses_quiet, mount_quiet.
Qed.

(** Row a plays; row b is pressed and its preview request is answered. *)
Lemma presses_keep_one_source_witness :
  at_most_one
    (run (presses Sample.results [("a", Sample.preview "a.mp3", Normal tt)])
         [Click "b"; DetailSettled "b" (Sample.preview "b.mp3")]).
Proof.
  apply (presses_keep_one_source ["a"; "b"]
           [("a", Sample.preview "a.mp3", Normal tt)]
           "b" (Sample.preview "b.mp3") (Normal tt)).
  exists [PlaySettled "b" fetched (Normal tt)]. reflexivity.
Defined.

(** A change of the rows that keeps the alerts keeps them on the page. *)
Lemma alerted_alter f a st req pl r :
  (∀ it, showAlert it = true → showAlert (f it) = true) →
  alerted (mkPage st req pl) r = true →
  alerted (mkPage (at_row f a st) req pl) r = true.
Proof.
  intros Hf. unfold alerted, at_row; simpl.
  destruct (decide (a = r)) as [->|Hne].
  - rewrite lookup_alter_eq. destruct (items st !! r); simpl; [apply Hf|done].
  - by rewrite lookup_alter_ne.
Qed.

Lemma alerted_setCurrentlyPlaying v st req pl r :
  alerted (mkPage st req pl) r = true →
  alerted (mkPage (setCurrentlyPlaying v st) req pl) r = true.
Proof.
  unfold setCurrentlyPlaying. destruct (currentlyPlaying st) as [a|]; [|done].
  case_bool_decide; [done|]. unfold alerted; simpl.
  destruct (decide (a = r)) as [->|Hne].
  - rewrite lookup_alter_eq. by destruct (items st !! r).
  - by rewrite lookup_alter_ne.
Qed.

Lemma alerted_stopCurrentAudio st req pl r :
  alerted (mkPage st req pl) r = true →
  alerted (mkPage (stopCurrentAudio st) req pl) r = true.
Proof.
  intros Hr. unfold stopCurrentAudio. apply alerted_setCurrentlyPlaying.
  revert Hr. unfold alerted; simpl. rewrite lookup_fmap.
  by destruct (items st !! r).
Qed.

Lemma step_alerted p e r : alerted p r = true → alerted (step p e) r = true.
Proof.
  destruct p as [st req pl]. intros Hr.
  destruct e as [a|a reply|a b settled|a]; cbn [step ui requests plays].
  - unfold togglePlay_begin. destruct (items st !! a) as [it|]; [|done].
    destruct (isPlaying st a); [|destruct (negb (truthy (previewUrl it)))];
      cbn [waiting].
    + apply alerted_setCurrentlyPlaying, alerted_alter; [done|exact Hr].
    + apply alerted_stopCurrentAudio; exact Hr.
    + apply alerted_alter, alerted_stopCurrentAudio; [done|exact Hr].
  - case_bool_decide; [|done].
    assert (Hcases : ∀ w st', togglePlay_detail a reply st = (st', w) →
              alerted (mkPage st' req pl) r = true).
    { intros w st'. unfold togglePlay_detail.
      destruct reply as [[[] [body|m]]|m]; cbn [ok json negb];
        try (intros ?; simplify_eq; apply alerted_alter; [done|exact Hr]).
      destruct (preview_url (data body)) as [url|];
        [|intros ?; simplify_eq; apply alerted_alter; [done|exact Hr]].
      destruct (truthy (Some url)); intros ?; simplify_eq;
        repeat (apply alerted_alter; [done|]); exact Hr. }
    destruct (togglePlay_detail a reply st) as [st' w] eqn:Hd.
    specialize (Hcases w st' eq_refl). destruct w; exact Hcases.
  - case_bool_decide; [|done].
    destruct settled as [[]|m]; cbn [togglePlay_played].
    + apply alerted_setCurrentlyPlaying; exact Hr.
    + destruct b; repeat (apply alerted_alter; [done|]); exact Hr.
  - destruct (items st !! a) as [it|]; [|done]. destruct (playing it); [|done].
    apply alerted_setCurrentlyPlaying, alerted_alter; [done|exact Hr].
Qed.

(** X21: the alert of a row ("Preview not available") is never taken
    back: once shown it stays through every run of events of the page. *)
Theorem alert_is_permanent p es r :
  alerted p r = true → alerted (run p es) r = true.
Proof.
  revert p. induction es as [|e es IH]; intros p Hr; [done|].
  apply IH. by apply step_alerted.
Qed.

(** The preview of row a is missing; later the row b plays. *)
Lemma alert_is_permanent_witness :
  alerted (run (run Sample.results
                    [Click "a"; DetailSettled "a" (success (mkDetail None None))])
               [Click "b"; DetailSettled "b" (Sample.preview "b.mp3");
                PlaySettled "b" fetched (Normal tt); Click "a"]) "a" = true.
Proof.
  apply (alert_is_permanent
           (run Sample.results
                [Click "a"; DetailSettled "a" (success (mkDetail None None))])).
  by vm_compute.
Defined.

Lemma has_preview_alter f a st req pl r :
  (∀ it, truthy (previewUrl it) = true → truthy (previewUrl (f it)) = true) →
  has_preview (mkPage st req pl) r = true →
  has_preview (mkPage (at_row f a st) req pl) r = true.
Proof.
  intros Hf. unfold has_preview, at_row; simpl.
  destruct (decide (a = r)) as [->|Hne].
  - rewrite lookup_alter_eq. destruct (items st !! r); simpl; [apply Hf|done].
  - by rewrite lookup_alter_ne.
Qed.

Lemma has_preview_setCurrentlyPlaying v st req pl r :
  has_preview (mkPage st req pl) r = true →
  has_preview (mkPage (setCurrentlyPlaying v st) req pl) r = true.
Proof.
  unfold setCurrentlyPlaying. destruct (currentlyPlaying st) as [a|]; [|done].
  case_bool_decide; [done|]. unfold has_preview; simpl.
  destruct (decide (a = r)) as [->|Hne].
  - rewrite lookup_alter_eq. by destruct (items st !! r).
  - by rewrite lookup_alter_ne.
Qed.

Lemma has_preview_stopCurrentAudio st req pl r :
  has_preview (mkPage st req pl) r = true →
  has_preview (mkPage (stopCurrentAudio st) req pl) r = true.
Proof.
  intros Hr. unfold stopCurrentAudio. apply has_preview_setCurrentlyPlaying.
  revert Hr. unfold has_preview; simpl. rewrite lookup_fmap.
  by destruct (items st !! r).
Qed.

Lemma elem_of_remove_first (k : string) l r :
  r ∈ remove_first k l → r ∈ l.
Proof.
  induction l as [|u l IH]; simpl; [done|].
  case_decide; [by right|]. rewrite !elem_of_cons. intros [->|Hr]; auto.
Qed.

Lemma step_cached p e r :
  has_preview p r = true → r ∉ requests p →
  has_preview (step p e) r = true ∧ r ∉ requests (step p e).
Proof.
  destruct p as [st req pl]. cbn [requests]. intros Hr Hnot.
  destruct e as [a|a reply|a b settled|a]; cbn [step ui requests plays].
  - unfold togglePlay_begin. destruct (items st !! a) as [it|] eqn:Hit; [|done].
    destruct (isPlaying st a); [|destruct (truthy (previewUrl it)) eqn:Hpre];
      cbn [negb waiting requests].
    + split; [|done].
      apply has_preview_setCurrentlyPlaying, has_preview_alter; [done|exact Hr].
    + split; [|done].
      apply has_preview_alter, has_preview_stopCurrentAudio; [done|exact Hr].
    + split; [apply has_preview_stopCurrentAudio; exact Hr|].
      rewrite elem_of_app, list_elem_of_singleton. intros [?| ->]; [done|].
      unfold has_preview in Hr; simpl in Hr. rewrite Hit in Hr. congruence.
  - case_bool_decide as Ha; [|done].
    assert (Hne : a ≠ r) by congruence.
    assert (Hreq : r ∉ remove_first a req)
      by (intros ?%elem_of_remove_first; done).
    assert (Hcases : ∀ w st', togglePlay_detail a reply st = (st', w) →
              has_preview (mkPage st' req pl) r = true ∧ w ≠ AwaitDetail).
    { intros w st'. unfold togglePlay_detail.
      destruct reply as [[[] [body|m]]|m]; cbn [ok json negb];
        try (intros ?; simplify_eq; split; [|done];
             apply has_preview_alter; [done|exact Hr]).
      destruct (preview_url (data body)) as [url|];
        [|intros ?; simplify_eq; split; [|done];
          apply has_preview_alter; [done|exact Hr]].
      destruct (truthy (Some url)) eqn:Hurl; intros ?; simplify_eq;
        (split; [|done]).
      - apply has_preview_alter; [done|].
        unfold has_preview, at_row in *; simpl in *.
        by rewrite lookup_alter_ne.
      - apply has_preview_alter; [done|exact Hr]. }
    destruct (togglePlay_detail a reply st) as [st' w] eqn:Hd.
    destruct (Hcases w st' eq_refl) as [Hpre Hw].
    destruct w; [split; [exact Hpre|exact Hreq]|done|split; [exact Hpre|exact Hreq]].
  - case_bool_decide; [|done]. split; [|done].
    destruct settled as [[]|m]; cbn [togglePlay_played].
    + apply has_preview_setCurrentlyPlaying; exact Hr.
    + destruct b; repeat (apply has_preview_alter; [done|]); exact Hr.
  - destruct (items st !! a) as [it|]; [|done]. destruct (playing it); [|done].
    split; [|done].
    apply has_preview_setCurrentlyPlaying, has_preview_alter; [done|exact Hr].
Qed.

(** X22: a row whose preview URL is known never asks the backend for it
    again: through every run of events of the page it keeps a preview URL
    and no preview request for it is pending. *)
Theorem cached_preview_not_requested p es r :
  has_preview p r = true → r ∉ requests p →
  has_preview (run p es) r = true ∧ r ∉ requests (run p es).
Proof.
  revert p. induction es as [|e es IH]; intros p Hr Hnot; [done|].
  destruct (step_cached p e r Hr Hnot). by apply IH.
Qed.

(** Row a played once; it is paused and pressed again. *)
Lemma cached_preview_not_requested_witness :
  "a" ∉ requests
    (run (presses Sample.results [("a", Sample.preview "a.mp3", Normal tt)])
         [Click "a"; Click "a"]).
Proof.
  refine (proj2 (cached_preview_not_requested
            (presses Sample.results [("a", Sample.preview "a.mp3", Normal tt)])
            [Click "a"; Click "a"] "a" _ _)).
  - by vm_compute.
  - vm_compute. apply not_elem_of_nil.
Defined.

End ResultsPage.

(** ** The genre picker ([GenreSelection.jsx]) *)

Module GenrePicker.
Import GenreSelection.

Lemma toggleGenre_valid g set :
  NoDup set → length set ≤ 5 →
  NoDup (toggleGenre g set) ∧ length (toggleGenre g set) ≤ 5 ∧
  (∀ x, x ∈ toggleGenre g set → x = g ∨ x ∈ set).
Proof.
  intros Hnd Hlen. unfold toggleGenre, add, delete, has.
  case_bool_decide as Hin.
  - split; [by apply NoDup_filter|]. split.
    + pose proof (length_filter (λ x, x ≠ g) set). lia.
    + intros x Hx%list_elem_of_filter. right. by destruct Hx.
  - case_bool_decide as Hsize; [|by auto].
    split; [|split].
    + apply NoDup_app. repeat split; [done| |apply NoDup_singleton].
      intros x Hx ->%list_elem_of_singleton. done.
    + rewrite length_app. simpl. lia.
    + intros x [Hx| ->%list_elem_of_singleton]%elem_of_app; auto.
Qed.

Lemma delete_fresh g set : g ∉ set → delete g set = set.
Proof.
  intros Hnot. unfold delete. induction set as [|x set IH]; [done|].
  apply not_elem_of_cons in Hnot as [Hne Hnot].
  rewrite filter_cons, decide_True by done. f_equal. by apply IH.
Qed.

Lemma valid_mount : valid mount.
Proof.
  unfold valid, mount, initial. cbn. repeat split; [apply NoDup_nil_2|lia|done].
Qed.

Lemma step_valid p e : valid p → valid (step p e).1.
Proof.
  intros Hv. pose proof Hv as (Hnd & Hlen & Hsub & Hinit).
  destruct e as [reply|g|]; cbn [step].
  - destruct (fetching p) eqn:Hf; [|done].
    rewrite (Hinit eq_refl). cbn.
    assert (Hempty : ∀ gs b e, valid (mkPicker (mkState gs [] b e) false)).
    { intros gs b e. unfold valid. cbn. repeat split; [apply NoDup_nil_2|lia| |done].
      intros x Hx. by apply not_elem_of_nil in Hx. }
    unfold fetchGenres_resume. cbn.
    destruct reply as [[[] [body|]]|]; cbn; apply Hempty.
  - destruct (grid_shown (view p) && has g (genres (view p))
              && negb (disabled (view p) g)) eqn:Hc; [|done].
    apply andb_true_iff in Hc as [[Hshown Hg]%andb_true_iff _].
    unfold has in Hg. apply bool_decide_eq_true in Hg.
    destruct (toggleGenre_valid g _ Hnd Hlen) as (Hnd' & Hlen' & Hin').
    unfold valid. cbn. repeat split; [done|done| |].
    + intros x Hx. destruct (Hin' x Hx) as [->|Hx']; [done|by apply Hsub].
    + intros Hf. rewrite (Hinit Hf) in Hshown. done.
  - by case_bool_decide.
Qed.

Lemma run_valid p es : valid p → valid (run p es).1.
Proof.
  revert p. induction es as [|e es IH]; intros p Hv; [done|].
  cbn [run]. pose proof (step_valid p e Hv) as Hv1.
  destruct (step p e) as [p1 out1]. specialize (IH p1 Hv1).
  by destruct (run p1 es) as [p2 out2].
Qed.

Lemma step_genres p e :
  fetching p = false →
  fetching (step p e).1 = false ∧ genres (view (step p e).1) = genres (view p).
Proof.
  intros Hf. destruct e as [reply|g|]; cbn [step].
  - by rewrite Hf.
  - by destruct (_ && _).
  - by case_bool_decide.
Qed.

Lemma run_genres p es :
  fetching p = false → genres (view (run p es).1) = genres (view p).
Proof.
  revert p. induction es as [|e es IH]; intros p Hf; [done|].
  cbn [run]. destruct (step_genres p e Hf) as [Hf1 Hg1].
  destruct (step p e) as [p1 out1]. specialize (IH p1 Hf1).
  destruct (run p1 es) as [p2 out2]. cbn [fst] in *. congruence.
Qed.

Lemma run_start p es gs :
  valid p → OnStart gs ∈ (run p es).2 →
  (1 ≤ length gs ≤ 5 ∧ NoDup gs) ∧ gs ⊆ genres (view (run p es).1).
Proof.
  revert p. induction es as [|e es IH]; intros p Hv Hin.
  { by apply not_elem_of_nil in Hin. }
  cbn [run] in *. pose proof (step_valid p e Hv) as Hv1.
  assert (Hout : (step p e).2 = [] ∨
     (step p e).2 = [OnStart (selectedGenres (view p))] ∧
     (step p e).1 = p ∧ selectedGenres (view p) ≠ []).
  { destruct e as [reply|g|]; cbn [step].
    - left. by destruct (fetching p).
    - left. by destruct (_ && _).
    - case_bool_decide as Hz; [by left|right]. repeat split.
      intros Heq. by rewrite Heq in Hz. }
  destruct (step p e) as [p1 out1]. specialize (IH p1 Hv1).
  pose proof (run_genres p1 es) as Hg.
  destruct (run p1 es) as [p2 out2]. cbn [fst snd] in *.
  apply elem_of_app in Hin as [Hin|Hin]; [|by apply IH].
  destruct Hout as [->|(-> & -> & Hne)]; [by apply not_elem_of_nil in Hin|].
  apply list_elem_of_singleton in Hin. injection Hin as ->.
  destruct Hv as (Hnd & Hlen & Hsub & Hinit).
  assert (Hf : fetching p = false).
  { destruct (fetching p) eqn:Hf; [|done]. by rewrite (Hinit eq_refl) in Hne. }
  rewrite (Hg Hf). repeat split; [|done|done|done].
  destruct (selectedGenres (view p)); [done|simpl; lia].
Qed.

Lemma step_blocked p e :
  (∀ reply, e = GenresSettled reply → genres_of reply = None) →
  selectedGenres (view p) = [] → grid_shown (view p) = false →
  (step p e).2 = [] ∧ selectedGenres (view (step p e).1) = [] ∧
  grid_shown (view (step p e).1) = false.
Proof.
  intros He Hsel Hgrid. destruct e as [reply|g|]; cbn [step].
  - destruct (fetching p); [|done]. specialize (He reply eq_refl).
    repeat split; [unfold fetchGenres_resume; by destruct reply as [[[] [body|]]|]|].
    unfold fetchGenres_resume, genres_of in *.
    destruct reply as [[[] [body|]]|]; cbn in *; try done.
    all: unfold grid_shown; cbn; by rewrite andb_false_r.
  - by rewrite Hgrid.
  - by rewrite Hsel.
Qed.

(** X23: selecting a genre that is not selected and deselecting it again
    gives the selection back, order included, when fewer than five genres
    were selected. *)
Theorem select_then_deselect g set :
  g ∉ set → length set < 5 →
  toggleGenre g (toggleGenre g set) = set.
Proof.
  intros Hnot Hlen. unfold toggleGenre at 2. unfold add, has.
  rewrite bool_decide_eq_false_2 by done. rewrite bool_decide_eq_true_2 by done.
  unfold toggleGenre, has.
  rewrite bool_decide_eq_true_2 by (apply elem_of_app; right; by apply list_elem_of_singleton).
  unfold delete. rewrite filter_app. fold (delete g set). rewrite delete_fresh by done.
  rewrite filter_cons, decide_False by (by intros H; apply H).
  by rewrite filter_nil, app_nil_r.
Qed.

Lemma select_then_deselect_witness :
  toggleGenre "rock" (toggleGenre "rock" ["pop"; "jazz"]) = ["pop"; "jazz"].
Proof.
  apply select_then_deselect.
  - intros H. apply elem_of_cons in H as [H|H]; [done|].
    apply elem_of_cons in H as [H|H]; [done|]. by apply not_elem_of_nil in H.
  - simpl. lia.
Defined.

(** X24: whatever is clicked and whatever the genre request gives, a list
    the picker hands to [onStart] has between one and five genres, no
    genre twice, and only genres of the list the backend sent. *)
Theorem start_sends_one_to_five es gs :
  OnStart gs ∈ (run mount es).2 →
  (1 ≤ length gs ≤ 5 ∧ NoDup gs) ∧ gs ⊆ genres (view (run mount es).1).
Proof. apply run_start, valid_mount. Qed.

Lemma start_sends_one_to_five_witness :
  let es := [GenresSettled (success ["pop"; "rock"]); ClickGenre "rock"; ClickStart] in
  OnStart ["rock"] ∈ (run mount es).2 ∧
  (1 ≤ length ["rock"] ≤ 5 ∧ NoDup ["rock"]) ∧
  ["rock"] ⊆ genres (view (run mount es).1).
Proof.
  split.
  - vm_compute. apply list_elem_of_here.
  - apply (start_sends_one_to_five
             [GenresSettled (success ["pop"; "rock"]); ClickGenre "rock"; ClickStart]).
    vm_compute. apply list_elem_of_here.
Defined.

(** X25: as long as the genre request has not given a list (no reply yet,
    a network failure, a non-success status or a body that is not JSON),
    no click selects a genre and the start button hands nothing to
    [onStart]. *)
Theorem no_genres_no_start es :
  Forall (λ e, ∀ reply, e = GenresSettled reply → genres_of reply = None) es →
  (run mount es).2 = [] ∧ selectedGenres (view (run mount es).1) = [].
Proof.
  assert (Hgen : ∀ p, Forall (λ e, ∀ reply, e = GenresSettled reply → genres_of reply = None) es →
    selectedGenres (view p) = [] → grid_shown (view p) = false →
    (run p es).2 = [] ∧ selectedGenres (view (run p es).1) = []).
  { induction es as [|e es IH]; intros p Hall Hsel Hgrid; [done|].
    apply Forall_cons in Hall as [He Hall]. cbn [run].
    destruct (step_blocked p e He Hsel Hgrid) as (Hout & Hsel1 & Hgrid1).
    destruct (step p e) as [p1 out1]. specialize (IH p1 Hall Hsel1 Hgrid1).
    destruct (run p1 es) as [p2 out2]. cbn [fst snd] in *.
    destruct IH as [-> ->]. by rewrite Hout. }
  intros Hall. by apply Hgen.
Qed.

Lemma no_genres_no_start_witness :
  let es := [ClickGenre "rock"; GenresSettled (Throw "down"); ClickGenre "rock"; ClickStart] in
  (run mount es).2 = [] ∧ selectedGenres (view (run mount es).1) = [].
Proof.
  apply (no_genres_no_start
    [ClickGenre "rock"; GenresSettled (Throw "down"); ClickGenre "rock"; ClickStart]).
  repeat (apply Forall_cons_2; [intros reply Heq; simplify_eq; reflexivity|]).
  apply Forall_nil_2.
Defined.

End GenrePicker.

(** ** The registration form ([LoginForm]) *)

Module Registration.
Import LoginForm.

Lemma trimStart_nil s : trimStart s = [] ↔ blank s.
Proof.
  unfold blank. induction s as [|c s IH]; [by split; [constructor|]|].
  cbn [trimStart]. destruct (is_space c) eqn:Hc.
  - rewrite IH. split; [by constructor|]. by intros [_ ?]%Forall_cons.
  - split; [done|]. intros [Hc' _]%Forall_cons. congruence.
Qed.

Lemma trimStart_head s : trimStart s = [] ∨ ∃ c s', trimStart s = c :: s' ∧ is_space c = false.
Proof.
  induction s as [|c s IH]; [by left|]. cbn [trimStart].
  destruct (is_space c) eqn:Hc; [done|]. right. by exists c, s.
Qed.

Lemma trim_nil s : trim s = [] ↔ blank s.
Proof.
  unfold trim. split.
  - intros H. apply (f_equal reverse) in H. rewrite reverse_involutive in H.
    cbn in H. apply trimStart_nil in H.
    destruct (trimStart_head s) as [Hs|(c & s' & Hs & Hc)]; [by apply trimStart_nil|].
    rewrite Hs in H. unfold blank in H. rewrite Forall_reverse in H.
    apply Forall_cons in H as [H _]. congruence.
  - intros H%trimStart_nil. by rewrite H.
Qed.

Lemma falsy_trim s : falsy (trim s) = true ↔ blank s.
Proof. rewrite <- trim_nil. by destruct (trim s). Qed.

Lemma many_spec class rest s :
  many class rest s = true ↔
  ∃ a s', s = a ++ s' ∧ (a ≠ [] ∧ Forall (λ c, class c = true) a) ∧ rest s' = true.
Proof.
  induction s as [|c s IH]; cbn [many].
  - split; [done|]. intros (a & s' & Heq & [Hne _] & _).
    symmetry in Heq. apply app_eq_nil in Heq as [-> _]. done.
  - rewrite andb_true_iff, orb_true_iff, IH. split.
    + intros [Hc [(a & s' & -> & [_ Ha] & Hr)|Hr]].
      * exists (c :: a), s'. repeat split; [done|by constructor|done].
      * exists [c], s. repeat split; [done|by repeat constructor|done].
    + intros (a & s' & Heq & [Hne Ha] & Hr).
      destruct a as [|c' a]; [done|]. injection Heq as <- ->.
      apply Forall_cons in Ha as [Hc Ha]. split; [done|].
      destruct a as [|c'' a]; [by right|left].
      exists (c'' :: a), s'. by repeat split.
Qed.

Lemma test_spec r s :
  test r s = true ↔ ∃ before s', s = before ++ s' ∧ matches r s' = true.
Proof.
  induction s as [|c s IH]; cbn [test].
  - rewrite orb_false_r. split; [by exists [], []|].
    intros (before & s' & Heq & Hm). symmetry in Heq.
    apply app_eq_nil in Heq as [_ ->]. done.
  - rewrite orb_true_iff, IH. split.
    + intros [Hm|(before & s' & -> & Hm)]; [by exists [], (c :: s)|].
      by exists (c :: before), s'.
    + intros (before & s' & Heq & Hm). destruct before as [|c' before].
      * left. cbn in Heq. by subst.
      * right. injection Heq as <- ->. by exists before, s'.
Qed.

Lemma one_spec a r s :
  matches (One (char a) :: r) s = true ↔ ∃ s', s = a :: s' ∧ matches r s' = true.
Proof.
  cbn [matches]. destruct s as [|c s].
  - split; [done|]. by intros (? & ? & _).
  - rewrite andb_true_iff. unfold char. rewrite N.eqb_eq. split.
    + intros [-> Hm]. by exists s.
    + intros (s' & [= -> ->] & Hm). done.
Qed.

Lemma email_pattern_spec s : test email_pattern s = true ↔ has_address s.
Proof.
  unfold has_address, solid, email_pattern. rewrite test_spec. split.
  - intros (before & s0 & -> & Hm). cbn [matches] in Hm.
    apply many_spec in Hm as (a & s1 & -> & Ha & Hm).
    change (matches (One (char 64) :: [Many non_space; One (char 46); Many non_space]) s1 = true) in Hm.
    apply one_spec in Hm as (s2 & -> & Hm). cbn [matches] in Hm.
    apply many_spec in Hm as (b & s3 & -> & Hb & Hm).
    change (matches (One (char 46) :: [Many non_space]) s3 = true) in Hm.
    apply one_spec in Hm as (s4 & -> & Hm). cbn [matches] in Hm.
    apply many_spec in Hm as (c & after & -> & Hc & _).
    by exists before, a, b, c, after.
  - intros (before & a & b & c & after & -> & Ha & Hb & Hc).
    exists before, (a ++ [64%N] ++ b ++ [46%N] ++ c ++ after). split; [done|].
    cbn [matches]. apply many_spec. exists a, ([64%N] ++ b ++ [46%N] ++ c ++ after).
    split; [done|]. split; [done|].
    change (matches (One (char 64) :: [Many non_space; One (char 46); Many non_space])
              (64%N :: b ++ [46%N] ++ c ++ after) = true).
    apply one_spec. eexists; split; [done|]. cbn [matches].
    apply many_spec. exists b, ([46%N] ++ c ++ after). split; [done|]. split; [done|].
    change (matches (One (char 46) :: [Many non_space]) (46%N :: c ++ after) = true).
    apply one_spec. eexists; split; [done|]. cbn [matches].
    apply many_spec. by exists c, after.
Qed.

Lemma has_address_not_blank s : has_address s → ¬ blank s.
Proof.
  intros (before & a & b & c & after & -> & [Hne Ha] & _) Hb.
  unfold blank in Hb. apply Forall_app in Hb as [_ Hb]. apply Forall_app in Hb as [Hb _].
  destruct a as [|x a]; [done|].
  apply Forall_cons in Ha as [Hx _]. apply Forall_cons in Hb as [Hx' _].
  unfold non_space in Hx. rewrite Hx' in Hx. done.
Qed.

Lemma blank_dec s : blank s ∨ ¬ blank s.
Proof.
  destruct (falsy (trim s)) eqn:H.
  - left. by apply falsy_trim.
  - right. intros Hb%falsy_trim. congruence.
Qed.

Lemma keys_length_zero e :
  bool_decide (keys_length e = 0) = true ↔ name_error e = None ∧ email_error e = None.
Proof.
  destruct e as [[n|] [m|]]; unfold keys_length; cbn [name_error email_error omap id];
    (split; [intros H%bool_decide_eq_true; cbn in H; try lia; done
            |intros [? ?]; try discriminate; by apply bool_decide_eq_true]).
Qed.

Lemma validateForm_spec s :
  (validateForm s).2 = true ↔ acceptable (formData s).
Proof.
  unfold validateForm, acceptable. cbn [snd]. rewrite keys_length_zero.
  destruct (falsy (trim (name (formData s)))) eqn:Hn.
  - apply falsy_trim in Hn. split; [|by intros [? _]].
    intros [H _]. revert H.
    destruct (falsy (trim (email (formData s))));
      [|destruct (negb (test email_pattern (email (formData s))))]; discriminate.
  - assert (Hname : ¬ blank (name (formData s))).
    { intros Hb%falsy_trim. congruence. }
    destruct (falsy (trim (email (formData s)))) eqn:He.
    + apply falsy_trim in He. split; [intros [_ H]; discriminate H|].
      intros [_ Ha]. by apply has_address_not_blank in Ha.
    + destruct (test email_pattern (email (formData s))) eqn:Ht; cbn [negb].
      * apply email_pattern_spec in Ht. by split.
      * split; [intros [_ H]; discriminate H|].
        intros [_ Ha%email_pattern_spec]. congruence.
Qed.

Lemma handleSubmit_begin_cases s :
  isLoading s = false →
  (acceptable (formData s) ∧
   ∃ errs, handleSubmit_begin s = (mkState (formData s) errs true, [OnSubmit (formData s)])) ∨
  (∃ errs, handleSubmit_begin s = (mkState (formData s) errs false, [])).
Proof.
  intros Hl. unfold handleSubmit_begin. pose proof (validateForm_spec s) as Hv.
  destruct (validateForm s) as [s1 valid] eqn:Hs. cbn [snd] in Hv.
  assert (formData s1 = formData s ∧ isLoading s1 = false) as [Hf Hl1].
  { unfold validateForm in Hs. injection Hs as <- _. by cbn. }
  destruct valid.
  - left. split; [by apply Hv|]. exists (errors s1). by rewrite Hf.
  - right. exists (errors s1). destruct s1 as [d e l]. cbn in *. by subst.
Qed.

Lemma step_form f e :
  idle f ∨ in_flight f →
  (idle (step f e).1 ∨ in_flight (step f e).1) ∧
  Forall (λ o, acceptable (submitted o)) (step f e).2.
Proof.
  intros [[Hl Hp]|(Hl & Hp & Ha)].
  - assert (Hidle : idle f) by done.
    destruct e as [v|v| |outcome]; cbn [step]; rewrite ?Hl, ?Hp.
    + split; [left; by split|constructor].
    + split; [left; by split|constructor].
    + destruct (handleSubmit_begin_cases (view f) Hl) as [[Ha (errs & ->)]|(errs & ->)].
      * split; [right; split; [done|split; [done|exact Ha]]|].
        apply Forall_cons_2; [exact Ha|constructor].
      * split; [left; by split|constructor].
    + split; [by left|constructor].
  - assert (Hbusy : in_flight f) by done.
    destruct e as [v|v| |outcome]; cbn [step]; rewrite ?Hl, ?Hp.
    1-3: split; [by right|constructor].
    split; [left; by split|constructor].
Qed.

(** X26: the form is accepted exactly when the name is not blank and the
    email has a part a@b.c whose three pieces are not empty and hold no
    white space; what is around that part is not looked at. *)
Theorem form_accepted_iff s :
  (validateForm s).2 = true ↔
  ¬ blank (name (formData s)) ∧ has_address (email (formData s)).
Proof. apply validateForm_spec. Qed.

(** X27: whatever is typed, submitted and settled, every form handed to
    [onSubmit] passed the validation, and at most one submission is in
    flight: until it settles the form is locked on the content that was
    submitted. *)
Theorem one_valid_submission_in_flight es :
  Forall (λ o, acceptable (submitted o)) (run mount es).2 ∧
  (idle (run mount es).1 ∨ in_flight (run mount es).1).
Proof.
  assert (Hgen : ∀ f, idle f ∨ in_flight f →
    Forall (λ o, acceptable (submitted o)) (run f es).2 ∧
    (idle (run f es).1 ∨ in_flight (run f es).1)).
  { induction es as [|e es IH]; intros f Hf; [by split; [constructor|]|].
    cbn [run]. destruct (step_form f e Hf) as [Hf1 Hout].
    destruct (step f e) as [f1 out1]. specialize (IH f1 Hf1).
    destruct (run f1 es) as [f2 out2]. cbn [fst snd] in *.
    destruct IH as [IH1 IH2]. split; [by apply Forall_app|done]. }
  apply Hgen. by left.
Qed.

End Registration.
